(** * bluez-gatt-dbus-client: the GATT server tool and the D-Bus GATT client

    A shallow embedding of [tools/btgatt-server.c] (the attribute callbacks of
    the test server and its [notify] command) and of [src/gatt-client.c] (the
    objects exported on D-Bus for a remote GATT database), with the properties
    of the specification proved about them.

    Conventions.
    - C integers are [Z]; a conversion to a fixed width is written out with
      [uint8], [uint16], [size_t].
    - A heap block is the list of its bytes; the [NULL] block is the empty
      list.  A pointer that the code tests against [NULL] is an [option].
    - Calls that leave the program (the attribute database, the bus, libc's
      allocator) are either results returned by the model or events in a
      log; where such a call can fail, its outcome is an input of the model.
    - Log output ([PRLOG], [DBG], [error]) is left out. *)

From Stdlib Require Import ZArith Lia List String Ascii Bool.
From stdpp Require Import base tactics option list gmap strings.

Local Open Scope Z_scope.
#[local] Set Warnings "-clear-no-such-hyp".

(* ===================================================================== *)
(** ** Fixed-width integers and memory blocks *)
(* ===================================================================== *)

Definition uint8 (z : Z) : Z := z mod 2 ^ 8.
Definition uint16 (z : Z) : Z := z mod 2 ^ 16.
Definition UINT16_MAX : Z := 2 ^ 16 - 1.
Definition SIZE_MAX : Z := 2 ^ 64 - 1.
Definition size_t (z : Z) : Z := z mod 2 ^ 64.

(** The allocator, as far as the program can see it: whether the next
    request is served, what a fresh byte holds before it is written,
    whether [realloc] serves the request with a block at a new address, and
    what the block it has freed then reads as. *)
Record heap := {
  alloc_ok : bool;
  fresh : nat -> Z;
  moved : bool;
  stale : nat -> Z
}.

(** glibc: [realloc(ptr, 0)] with a block behind [ptr] frees the block and
    returns [NULL]. *)
Definition realloc_frees (old : list Z) (size : Z) : bool :=
  (size =? 0) && negb (Nat.eqb (length old) 0).

(** [realloc(ptr, size)]: [None] is the [NULL] return.  A request the
    allocator refuses leaves the old block alone; a request for 0 bytes
    frees it; otherwise the new block has [size] bytes and keeps the old
    ones up to the smaller of the two sizes. *)
Definition realloc (h : heap) (old : list Z) (size : Z) : option (list Z) :=
  if realloc_frees old size then None
  else if alloc_ok h
  then Some (map (fun i => nth i old (fresh h i)) (seq 0 (Z.to_nat size)))
  else None.

(** What a read through the pointer given to [realloc] finds once
    [realloc] has returned [NULL]: the old block, unless the call has
    freed it. *)
Definition after_null (h : heap) (old : list Z) (size : Z) : list Z :=
  if realloc_frees old size then map (stale h) (seq 0 (length old)) else old.

(** What a read through the pointer given to [realloc] finds once
    [realloc] has returned the block [blk]: that block when it stayed in
    place, and otherwise the freed block, which holds what the allocator
    left in it. *)
Definition through_old_pointer (h : heap) (old blk : list Z) : list Z :=
  if moved h then map (stale h) (seq 0 (length old)) else blk.

(** [memcpy(dst + off, src, n)].  Bytes that would fall outside [dst] are
    dropped (in C the call has no defined behaviour there). *)
Definition memcpy (dst : list Z) (off : Z) (src : list Z) (n : Z) : list Z :=
  list_inserts (Z.to_nat off) (take (Z.to_nat n) src) dst.

(** A (pointer, length) pair as the attribute database hands it to a write
    callback: a block of exactly [len] bytes, or [NULL] with nothing to
    write. *)
Definition valid_buf (value : option (list Z)) (len : Z) : Prop :=
  match value with
  | Some v => len = Z.of_nat (length v)
  | None => len = 0
  end.

(* ===================================================================== *)
(** ** ATT error codes *)
(* ===================================================================== *)

Module att.
(** The [BT_ATT_ERROR_*] macros are defined in [src/shared/att-types.h],
    which is not among the sources. *)

(** Modelled from the spec: the error table of section 6 gives
    [0x02 READ_NOT_PERMITTED]. *)
Definition BT_ATT_ERROR_READ_NOT_PERMITTED : Z := 0x02.

(** Modelled from the spec: the error table of section 6 gives
    [0x03 WRITE_NOT_PERMITTED]. *)
Definition BT_ATT_ERROR_WRITE_NOT_PERMITTED : Z := 0x03.

(** Modelled from the spec: the error table of section 6 gives
    [0x05 INSUFFICIENT_AUTHENTICATION]. *)
Definition BT_ATT_ERROR_AUTHENTICATION : Z := 0x05.

(** Modelled from the spec: the error table of section 6 gives
    [0x06 REQUEST_NOT_SUPPORTED]. *)
Definition BT_ATT_ERROR_REQUEST_NOT_SUPPORTED : Z := 0x06.

(** Modelled from the spec: the error table of section 6 gives
    [0x07 INVALID_OFFSET]. *)
Definition BT_ATT_ERROR_INVALID_OFFSET : Z := 0x07.

(** Modelled from the spec: the error table of section 6 gives
    [0x08 INSUFFICIENT_AUTHORIZATION]. *)
Definition BT_ATT_ERROR_AUTHORIZATION : Z := 0x08.

(** Modelled from the spec: the error table of section 6 gives
    [0x0D INVALID_ATTRIBUTE_VALUE_LENGTH]. *)
Definition BT_ATT_ERROR_INVALID_ATTRIBUTE_VALUE_LEN : Z := 0x0D.

(** Modelled from the spec: the error table of section 6 gives
    [0x0F INSUFFICIENT_ENCRYPTION]. *)
Definition BT_ATT_ERROR_INSUFFICIENT_ENCRYPTION : Z := 0x0F.

(** Modelled from the spec: the error table of section 6 gives
    [0x11 INSUFFICIENT_RESOURCES]. *)
Definition BT_ATT_ERROR_INSUFFICIENT_RESOURCES : Z := 0x11.
End att.
Import att.

(* ===================================================================== *)
(** ** tools/btgatt-server.c: the attribute callbacks *)
(* ===================================================================== *)

Module Server.

(** [struct server].  [fd], [db] and [gatt] are handles the callbacks
    never look into.  What the callbacks print with [PRLOG] is left out. *)
Record server := {
  fd : Z;
  db : nat;
  gatt : nat;
  device_name : list Z;
  name_len : Z;
  svc_chngd_enabled : bool
}.

Definition with_name (s : server) (name : list Z) : server :=
  {| fd := fd s; db := db s; gatt := gatt s; device_name := name;
     name_len := name_len s; svc_chngd_enabled := svc_chngd_enabled s |}.

Definition with_name_len (s : server) (n : Z) : server :=
  {| fd := fd s; db := db s; gatt := gatt s; device_name := device_name s;
     name_len := n; svc_chngd_enabled := svc_chngd_enabled s |}.

Definition with_svc_chngd_enabled (s : server) (b : bool) : server :=
  {| fd := fd s; db := db s; gatt := gatt s; device_name := device_name s;
     name_len := name_len s; svc_chngd_enabled := b |}.

(** The block behind [device_name] has [name_len] bytes. *)
Definition server_wf (s : server) : Prop :=
  name_len s = Z.of_nat (length (device_name s)).

(** The arguments of [gatt_db_attribute_read_result]: error code, pointer
    and length.  [rr_value] is the memory the pointer looks at. *)
Record read_result := {
  rr_error : Z;
  rr_value : option (list Z);
  rr_len : Z
}.

(** The bytes a read completion hands over. *)
Definition rr_bytes (r : read_result) : list Z :=
  match rr_value r with
  | Some p => take (Z.to_nat (rr_len r)) p
  | None => []
  end.

(** [gap_device_name_read_cb]; [offset] is a [uint16_t]. *)
Definition gap_device_name_read_cb (s : server) (offset : Z) : read_result :=
  let len := name_len s in
  if offset >? len
  then {| rr_error := BT_ATT_ERROR_INVALID_OFFSET; rr_value := None;
          rr_len := len |}
  else
    let len := len - offset in
    {| rr_error := 0;
       rr_value := if len =? 0 then None
                   else Some (drop (Z.to_nat offset) (device_name s));
       rr_len := len |}.

(** [gap_device_name_write_cb]: the new state and the error code given to
    [gatt_db_attribute_write_result].  [offset] is a [uint16_t], [len] a
    [size_t], their sum is computed in [size_t].  The first [memcpy] reads
    through [server->device_name], which is still the pointer that was
    handed to [realloc]; so does everything that comes after a [NULL]
    return, which leaves [server->device_name] as it is. *)
Definition gap_device_name_write_cb (h : heap) (s : server) (offset : Z)
    (value : option (list Z)) (len : Z) : server * Z :=
  if offset >? name_len s then (s, BT_ATT_ERROR_INVALID_OFFSET)
  else
    let resized :=
      if negb (size_t (offset + len) =? name_len s) then
        match realloc h (device_name s) (size_t (offset + len)) with
        | None =>
            inl (with_name s (after_null h (device_name s)
                                         (size_t (offset + len))),
                 BT_ATT_ERROR_INSUFFICIENT_RESOURCES)
        | Some name =>
            let name :=
              memcpy name 0 (through_old_pointer h (device_name s) name)
                     (Z.min (size_t (offset + len)) (name_len s)) in
            inr (with_name_len (with_name s name) (size_t (offset + len)))
        end
      else inr s in
    match resized with
    | inl failed => failed
    | inr s1 =>
        match value with
        | Some v => (with_name s1 (memcpy (device_name s1) offset v len), 0)
        | None => (s1, 0)
        end
    end.

(** [gatt_svc_chngd_ccc_read_cb]. *)
Definition gatt_svc_chngd_ccc_read_cb (s : server) : read_result :=
  let value := [if svc_chngd_enabled s then 0x02 else 0x00; 0x00] in
  {| rr_error := 0; rr_value := Some value; rr_len := 2 |}.

(** [gatt_svc_chngd_ccc_write_cb]. *)
Definition gatt_svc_chngd_ccc_write_cb (s : server) (offset : Z)
    (value : option (list Z)) (len : Z) : server * Z :=
  match value with
  | None => (s, BT_ATT_ERROR_INVALID_ATTRIBUTE_VALUE_LEN)
  | Some v =>
      if negb (len =? 2) then (s, BT_ATT_ERROR_INVALID_ATTRIBUTE_VALUE_LEN)
      else if negb (offset =? 0) then (s, BT_ATT_ERROR_INVALID_OFFSET)
      else if nth 0 v 0 =? 0x00 then (with_svc_chngd_enabled s false, 0)
      else if nth 0 v 0 =? 0x02 then (with_svc_chngd_enabled s true, 0)
      else (s, 0x80)
  end.

(* ------------------------------------------------------------------- *)
(** *** The [notify] command *)
(* ------------------------------------------------------------------- *)

(** The newline of the [printf] formats. *)
Definition LF : string := String (ascii_of_nat 10) EmptyString.

(** What the command does to the outside: text on standard output and
    the two calls into the GATT server.  A [NULL] value pointer (only
    with length 0) is the empty block. *)
Inductive event :=
| Printf (text : string)
| NotifyUsage
| SendIndication (gatt : nat) (handle : Z) (value : list Z) (length : Z)
| SendNotification (gatt : nat) (handle : Z) (value : list Z) (length : Z).

(** libc: [strsep(&str, " \t")].  The token, and what [str] is afterwards
    ([None] is [NULL]). *)
Definition is_delim (c : ascii) : bool :=
  (Ascii.eqb c " " || Ascii.eqb c (ascii_of_nat 9))%bool.

Fixpoint strsep_scan (s : string) : string * option string :=
  match s with
  | EmptyString => (EmptyString, None)
  | String c s' =>
      if is_delim c then (EmptyString, Some s')
      else let '(tok, rest) := strsep_scan s' in (String c tok, rest)
  end.

Definition strsep (str : option string) : option string * option string :=
  match str with
  | None => (None, None)
  | Some s => let '(tok, rest) := strsep_scan s in (Some tok, rest)
  end.

(** An upper bound on the number of [strsep] calls that return a token. *)
Definition strsep_measure (str : option string) : nat :=
  match str with
  | None => O
  | Some s => S (String.length s)
  end.

(** The loop of [parse_args]; [argv] collects the tokens stored through
    [ap].  The result is the return value with the final [argv] and
    [*argc]. *)
Fixpoint parse_args_loop (fuel : nat) (str : option string)
    (expected_argc : Z) (argv : list string) (argc : Z)
    : bool * list string * Z :=
  match fuel with
  | O => (true, argv, argc)
  | S fuel =>
      match strsep str with
      | (None, _) => (true, argv, argc)
      | (Some ap, str) =>
          if String.eqb ap EmptyString
          then parse_args_loop fuel str expected_argc argv argc
          else
            let argc := argc + 1 in
            let argv := argv ++ [ap] in
            if argc >? expected_argc then (false, argv, argc)
            else parse_args_loop fuel str expected_argc argv argc
      end
  end.

Definition parse_args (str : option string) (expected_argc : Z) (argc : Z)
    : bool * list string * Z :=
  parse_args_loop (S (strsep_measure str)) str expected_argc [] argc.

(** libc: [getopt_long(argc, argv, "+i", notify_options, NULL)] called
    until it returns -1, with the body of the [while] loop folded in.
    [args] is [argv] from [optind] on.  [None]: an argument was not an
    option the command knows (the [default:] case); otherwise the flag and
    the final [optind].  The leading [+] stops the scan at the first
    argument that is not an option; a long option may be shortened to any
    prefix of its name; what [getopt_long] itself writes to standard error
    is left out. *)
Definition long_option_ok (name : string) : bool :=
  String.prefix name "indicate".

Definition short_options_ok (cluster : string) : bool :=
  forallb (fun c => Ascii.eqb c "i") (list_ascii_of_string cluster).

Fixpoint getopt_scan (args : list string) (indicate : bool) (optind : Z)
    : option (bool * Z) :=
  match args with
  | [] => Some (indicate, optind)
  | arg :: args' =>
      match arg with
      | String "-" (String "-" EmptyString) => Some (indicate, optind + 1)
      | String "-" (String "-" name) =>
          if long_option_ok name
          then getopt_scan args' true (optind + 1)
          else None
      | String "-" (String c cluster) =>
          if short_options_ok (String c cluster)
          then getopt_scan args' true (optind + 1)
          else None
      | _ => Some (indicate, optind)
      end
  end.

(** libc: [strtol(nptr, &endptr, 16)] with a 64-bit [long]: the value,
    the offset of [endptr] in [nptr], and whether [errno] was set to
    [ERANGE]. *)
Definition LONG_MAX : Z := 2 ^ 63 - 1.
Definition LONG_MIN : Z := - 2 ^ 63.

Definition isspace (c : ascii) : bool :=
  let n := nat_of_ascii c in
  (Nat.eqb n 32 || (Nat.leb 9 n && Nat.leb n 13))%bool.

Definition hex_digit (c : ascii) : option Z :=
  let n := Z.of_nat (nat_of_ascii c) in
  if (48 <=? n) && (n <=? 57) then Some (n - 48)
  else if (97 <=? n) && (n <=? 102) then Some (n - 87)
  else if (65 <=? n) && (n <=? 70) then Some (n - 55)
  else None.

Fixpoint skip_space (s : string) : string :=
  match s with
  | String c s' => if isspace c then skip_space s' else s
  | EmptyString => s
  end.

(** The digits at the front of [s]: their value on top of [acc], and how
    many there are. *)
Fixpoint hex_digits (s : string) (acc : Z) : Z * nat :=
  match s with
  | String c s' =>
      match hex_digit c with
      | Some d => let '(v, n) := hex_digits s' (acc * 16 + d) in (v, S n)
      | None => (acc, O)
      end
  | EmptyString => (acc, O)
  end.

Definition has_hex_prefix (s : string) : bool :=
  match s with
  | String "0" (String c _) => (Ascii.eqb c "x" || Ascii.eqb c "X")%bool
  | _ => false
  end.

Definition strtol16 (nptr : string) : Z * nat * bool :=
  let s := skip_space nptr in
  let spaces := (String.length nptr - String.length s)%nat in
  let '(negative, s1, sign) :=
    match s with
    | String "-" s' => (true, s', 1%nat)
    | String "+" s' => (false, s', 1%nat)
    | _ => (false, s, O)
    end in
  let '(save, prefix) :=
    if has_hex_prefix s1
    then (String.substring 2 (String.length s1 - 2) s1, 2%nat)
    else (s1, O) in
  let '(v, n) := hex_digits save 0 in
  match n with
  | O =>
      (* noconv: endptr is the 'x' of a lone "0x", or nptr itself *)
      if has_hex_prefix s1 then (0, (spaces + sign + 1)%nat, false)
      else (0, O, false)
  | _ =>
      let endptr := (spaces + sign + prefix + n)%nat in
      if negative
      then if v >? - LONG_MIN then (LONG_MIN, endptr, true)
           else (- v, endptr, false)
      else if v >? LONG_MAX then (LONG_MAX, endptr, true)
           else (v, endptr, false)
  end.

(** [*endptr != '\0'] *)
Definition at_end (s : string) (endptr : nat) : bool :=
  Nat.eqb endptr (String.length s).

(** The [for] loop over the value bytes, [argv[1]] onwards.  [errno] is
    whether [errno == ERANGE] holds, which nothing in the loop resets.
    [inl] is the text printed before [goto done]. *)
Fixpoint parse_value (args : list string) (errno : bool)
    : string + list Z :=
  match args with
  | [] => inr []
  | arg :: args' =>
      if negb (Nat.eqb (String.length arg) 2)
      then inl ("Invalid value byte: " ++ arg ++ LF)%string
      else
        let '(v, endptr, erange) := strtol16 arg in
        let errno := (errno || erange)%bool in
        if (Nat.eqb endptr O || negb (at_end arg endptr) || errno)%bool
        then inl ("Invalid value byte: " ++ arg ++ LF)%string
        else
          match parse_value args' errno with
          | inl text => inl text
          | inr value => inr (uint8 v :: value)
          end
  end.

(** [cmd_notify].  Inputs besides the command string: the allocator,
    whether [errno] is [ERANGE] on entry, and the return value of the
    send call. *)
Definition cmd_notify (h : heap) (errno : bool) (send_ok : bool)
    (s : server) (cmd_str : option string) : list event :=
  let '(ok, args, argc) := parse_args cmd_str 514 1 in
  if negb ok then [Printf ("Too many arguments" ++ LF)%string; NotifyUsage]
  else
    match getopt_scan args false 1 with
    | None => [NotifyUsage]
    | Some (indicate, optind) =>
        let argc := argc - optind in
        let argv := drop (Z.to_nat (optind - 1)) args in
        if argc <? 1 then [NotifyUsage]
        else
          let argv0 := hd EmptyString argv in
          let '(v, endptr, erange) := strtol16 argv0 in
          let errno := (errno || erange)%bool in
          let handle := uint16 v in
          if (negb (at_end argv0 endptr) || (handle =? 0))%bool
          then [Printf ("Invalid handle: " ++ argv0 ++ LF)%string]
          else
            let length := argc - 1 in
            let parsed :=
              if length >? 0 then
                if length >? UINT16_MAX
                then inl [Printf ("Value too long" ++ LF)%string]
                else if negb (alloc_ok h)
                then inl [Printf ("Failed to construct value" ++ LF)%string]
                else
                  match parse_value (tl argv) errno with
                  | inl text => inl [Printf text]
                  | inr value => inr value
                  end
              else inr [] in
            match parsed with
            | inl out => out
            | inr value =>
                if indicate
                then SendIndication (gatt s) handle value length ::
                     (if send_ok then []
                      else [Printf ("Failed to initiate indication" ++ LF)%string])
                else SendNotification (gatt s) handle value length ::
                     (if send_ok then []
                      else [Printf ("Failed to initiate notification" ++ LF)%string])
            end
    end.

(** The argument [cmd_notify] reads the handle from: [argv[0]] once the
    options are gone, when the command line gets that far. *)
Definition handle_token (cmd_str : option string) : option string :=
  let '(ok, args, argc) := parse_args cmd_str 514 1 in
  if negb ok then None
  else
    match getopt_scan args false 1 with
    | None => None
    | Some (_, optind) =>
        if argc - optind <? 1 then None
        else Some (hd EmptyString (drop (Z.to_nat (optind - 1)) args))
    end.

End Server.


(* ===================================================================== *)
(** ** State with a trace *)
(* ===================================================================== *)

(** The code of [src/gatt-client.c] updates objects in place and calls out
    to the bus in between.  A computation takes the state, and returns its
    result, the new state, and the calls it made, each with the state as it
    was when the call left. *)
Section Monad.
Context {St Ev : Type}.

Definition M (A : Type) : Type := St -> A * St * list (St * Ev).

Definition ret {A} (a : A) : M A := fun s => (a, s, []).

Definition bind {A B} (m : M A) (k : A -> M B) : M B :=
  fun s =>
    let '(a, s1, t1) := m s in
    let '(b, s2, t2) := k a s1 in
    (b, s2, t1 ++ t2).

Definition get : M St := fun s => (s, s, []).
Definition put (s : St) : M unit := fun _ => (tt, s, []).
Definition modify (f : St -> St) : M unit := fun s => (tt, f s, []).
Definition emit (e : Ev) : M unit := fun s => (tt, s, [(s, e)]).

(** [queue_foreach] and the like, over a list already read. *)
Fixpoint foreach {A} (f : A -> M unit) (l : list A) : M unit :=
  match l with
  | [] => ret tt
  | x :: l' => bind (f x) (fun _ => foreach f l')
  end.

Definition result {A} (r : A * St * list (St * Ev)) : A := fst (fst r).
Definition final {A} (r : A * St * list (St * Ev)) : St := snd (fst r).
Definition trace {A} (r : A * St * list (St * Ev)) : list (St * Ev) := snd r.
Definition events {A} (r : A * St * list (St * Ev)) : list Ev :=
  map snd (snd r).
End Monad.

Arguments M : clear implicits.

Declare Scope monad_scope.
Delimit Scope monad_scope with monad.
Notation "x <- m ;; k" := (bind m (fun x => k))
  (at level 100, m at next level, right associativity) : monad_scope.
Notation "m ;; k" := (bind m (fun _ => k))
  (at level 100, right associativity) : monad_scope.

(* ===================================================================== *)
(** ** src/gatt-client.c *)
(* ===================================================================== *)

(** What the code takes from headers that are not among the sources and
    that the specification does not give: the prefix of the daemon's D-Bus
    error names ([src/error.h]) and the error code for a too short
    encryption key ([src/shared/att-types.h]). *)
Class headers := {
  ERROR_INTERFACE : string;
  BT_ATT_ERROR_INSUFFICIENT_ENCRYPTION_KEY_SIZE : Z
}.

(** The bits of a characteristic's properties and extended properties,
    which also come from a header that is not among the sources. *)
Class prop_bits := {
  BT_GATT_CHRC_PROP_BROADCAST : Z;
  BT_GATT_CHRC_PROP_READ : Z;
  BT_GATT_CHRC_PROP_WRITE_WITHOUT_RESP : Z;
  BT_GATT_CHRC_PROP_WRITE : Z;
  BT_GATT_CHRC_PROP_NOTIFY : Z;
  BT_GATT_CHRC_PROP_INDICATE : Z;
  BT_GATT_CHRC_PROP_AUTH : Z;
  BT_GATT_CHRC_PROP_EXT_PROP : Z;
  BT_GATT_CHRC_EXT_PROP_RELIABLE_WRITE : Z;
  BT_GATT_CHRC_EXT_PROP_WRITABLE_AUX : Z
}.

Module Client.

Definition GATT_SERVICE_IFACE : string := "org.bluez.GattService1".
Definition GATT_CHARACTERISTIC_IFACE : string :=
  "org.bluez.GattCharacteristic1".
Definition GATT_DESCRIPTOR_IFACE : string := "org.bluez.GattDescriptor1".

(** [printf]'s [%02x] of a [uint8_t] and [%04x] of a [uint16_t]. *)
Definition hex_char (d : Z) : ascii :=
  nth (Z.to_nat d) (list_ascii_of_string "0123456789abcdef") "?"%char.

Definition fmt_02x (v : Z) : string :=
  String (hex_char (v / 16)) (String (hex_char (v mod 16)) EmptyString).

Definition fmt_04x (v : Z) : string :=
  (fmt_02x (v / 256) ++ fmt_02x (v mod 256))%string.

(** A D-Bus reply to the method call [msg].  The [btd_error_*] builders
    are those of [src/error.c]; [method_return] is [g_dbus_create_reply]
    with the byte array appended to it. *)
Inductive DBusMessage :=
| g_dbus_create_error (msg : nat) (name : string) (text : string)
| btd_error_not_authorized (msg : nat)
| btd_error_not_supported (msg : nat)
| btd_error_in_progress (msg : nat)
| btd_error_failed (msg : nat) (str : string)
| method_return (msg : nat) (value : list Z).

Definition is_error (m : DBusMessage) : bool :=
  match m with
  | method_return _ _ => false
  | _ => true
  end.

Section Errors.
Context `{headers}.

Definition gatt_error_read_not_permitted (msg : nat) : DBusMessage :=
  g_dbus_create_error msg (ERROR_INTERFACE ++ ".ReadNotPermitted")
                      "Reading of this value is not allowed".

Definition gatt_error_write_not_permitted (msg : nat) : DBusMessage :=
  g_dbus_create_error msg (ERROR_INTERFACE ++ ".WriteNotPermitted")
                      "Writing of this value is not allowed".

Definition gatt_error_invalid_value_len (msg : nat) : DBusMessage :=
  g_dbus_create_error msg (ERROR_INTERFACE ++ ".InvalidValueLength")
                      "Invalid value length".

Definition gatt_error_invalid_offset (msg : nat) : DBusMessage :=
  g_dbus_create_error msg (ERROR_INTERFACE ++ ".InvalidOffset")
                      "Invalid value offset".

Definition gatt_error_not_paired (msg : nat) : DBusMessage :=
  g_dbus_create_error msg (ERROR_INTERFACE ++ ".NotPaired") "Not Paired".

(** [create_gatt_dbus_error]; [att_ecode] is a [uint8_t].  The [switch]
    is tried label by label in the order of the source, which is what
    it does when the labels differ from one another, as C requires.
    [None] is the [return NULL] after the [switch]. *)
Definition create_gatt_dbus_error (msg : nat) (att_ecode : Z)
    : option DBusMessage :=
  if att_ecode =? BT_ATT_ERROR_READ_NOT_PERMITTED
  then Some (gatt_error_read_not_permitted msg)
  else if att_ecode =? BT_ATT_ERROR_WRITE_NOT_PERMITTED
  then Some (gatt_error_write_not_permitted msg)
  else if (att_ecode =? BT_ATT_ERROR_AUTHENTICATION)
          || (att_ecode =? BT_ATT_ERROR_INSUFFICIENT_ENCRYPTION)
          || (att_ecode =? BT_ATT_ERROR_INSUFFICIENT_ENCRYPTION_KEY_SIZE)
  then Some (gatt_error_not_paired msg)
  else if att_ecode =? BT_ATT_ERROR_INVALID_OFFSET
  then Some (gatt_error_invalid_offset msg)
  else if att_ecode =? BT_ATT_ERROR_INVALID_ATTRIBUTE_VALUE_LEN
  then Some (gatt_error_invalid_value_len msg)
  else if att_ecode =? BT_ATT_ERROR_AUTHORIZATION
  then Some (btd_error_not_authorized msg)
  else if att_ecode =? BT_ATT_ERROR_REQUEST_NOT_SUPPORTED
  then Some (btd_error_not_supported msg)
  else if att_ecode =? 0
  then Some (btd_error_failed msg "Operation failed")
  else Some (g_dbus_create_error msg ERROR_INTERFACE
               ("Operation failed with ATT error: 0x"
                  ++ fmt_02x att_ecode)).
(** The labels of the [switch] in [create_gatt_dbus_error]. *)
Definition switch_labels : list Z :=
  [ BT_ATT_ERROR_READ_NOT_PERMITTED; BT_ATT_ERROR_WRITE_NOT_PERMITTED;
    BT_ATT_ERROR_AUTHENTICATION; BT_ATT_ERROR_INSUFFICIENT_ENCRYPTION;
    BT_ATT_ERROR_INSUFFICIENT_ENCRYPTION_KEY_SIZE;
    BT_ATT_ERROR_INVALID_OFFSET; BT_ATT_ERROR_INVALID_ATTRIBUTE_VALUE_LEN;
    BT_ATT_ERROR_AUTHORIZATION; BT_ATT_ERROR_REQUEST_NOT_SUPPORTED; 0 ].

End Errors.

(* ------------------------------------------------------------------- *)
(** *** The exported objects *)
(* ------------------------------------------------------------------- *)

(** [struct descriptor], [struct characteristic], [struct service].  The
    pointer to the parent is the place of the object in the parent's
    queue. *)
Record descriptor := {
  desc_handle : Z;
  desc_uuid : list Z;
  desc_path : string
}.

Record characteristic := {
  chrc_handle : Z;
  value_handle : Z;
  props : Z;
  chrc_uuid : list Z;
  chrc_path : string;
  in_read : bool;
  value_known : bool;
  value : list Z;
  value_len : Z;
  descs : list descriptor
}.

Record service := {
  primary : bool;
  start_handle : Z;
  end_handle : Z;
  svc_uuid : list Z;
  svc_path : string;
  chrcs : list characteristic;
  chrcs_ready : bool
}.

Definition with_in_read (b : bool) (c : characteristic) : characteristic :=
  {| chrc_handle := chrc_handle c; value_handle := value_handle c;
     props := props c; chrc_uuid := chrc_uuid c; chrc_path := chrc_path c;
     in_read := b; value_known := value_known c; value := value c;
     value_len := value_len c; descs := descs c |}.

Definition with_value_known (b : bool) (c : characteristic)
    : characteristic :=
  {| chrc_handle := chrc_handle c; value_handle := value_handle c;
     props := props c; chrc_uuid := chrc_uuid c; chrc_path := chrc_path c;
     in_read := in_read c; value_known := b; value := value c;
     value_len := value_len c; descs := descs c |}.

Definition with_value (v : list Z) (c : characteristic) : characteristic :=
  {| chrc_handle := chrc_handle c; value_handle := value_handle c;
     props := props c; chrc_uuid := chrc_uuid c; chrc_path := chrc_path c;
     in_read := in_read c; value_known := value_known c; value := v;
     value_len := value_len c; descs := descs c |}.

Definition with_value_len (n : Z) (c : characteristic) : characteristic :=
  {| chrc_handle := chrc_handle c; value_handle := value_handle c;
     props := props c; chrc_uuid := chrc_uuid c; chrc_path := chrc_path c;
     in_read := in_read c; value_known := value_known c; value := value c;
     value_len := n; descs := descs c |}.

Definition with_descs (ds : list descriptor) (c : characteristic)
    : characteristic :=
  {| chrc_handle := chrc_handle c; value_handle := value_handle c;
     props := props c; chrc_uuid := chrc_uuid c; chrc_path := chrc_path c;
     in_read := in_read c; value_known := value_known c; value := value c;
     value_len := value_len c; descs := ds |}.

Definition with_chrcs (cs : list characteristic) (s : service) : service :=
  {| primary := primary s; start_handle := start_handle s;
     end_handle := end_handle s; svc_uuid := svc_uuid s;
     svc_path := svc_path s; chrcs := cs; chrcs_ready := chrcs_ready s |}.

Definition with_chrcs_ready (b : bool) (s : service) : service :=
  {| primary := primary s; start_handle := start_handle s;
     end_handle := end_handle s; svc_uuid := svc_uuid s;
     svc_path := svc_path s; chrcs := chrcs s; chrcs_ready := b |}.

(** The block behind [value] has [value_len] bytes. *)
Definition chrc_wf (c : characteristic) : Prop :=
  value_len c = Z.of_nat (length (value c)).

(** The remote database as [src/shared/gatt-client.h] shows it:
    [bt_gatt_descriptor_t], [bt_gatt_characteristic_t],
    [bt_gatt_service_t] and what the two iterators walk over.  [sd_iter_ok]
    and [gatt_iter_ok] are the return values of the [..._iter_init]
    calls. *)
Record bt_gatt_descriptor_t := {
  dd_handle : Z;
  dd_uuid : list Z
}.

Record bt_gatt_characteristic_t := {
  cd_start_handle : Z;
  cd_end_handle : Z;
  cd_value_handle : Z;
  cd_properties : Z;
  cd_uuid : list Z;
  cd_descs : list bt_gatt_descriptor_t
}.

Record bt_gatt_service_t := {
  sd_primary : bool;
  sd_start_handle : Z;
  sd_end_handle : Z;
  sd_uuid : list Z;
  sd_iter_ok : bool;
  sd_chrcs : list bt_gatt_characteristic_t
}.

Record bt_gatt_client := {
  gatt_id : nat;
  gatt_iter_ok : bool;
  gatt_services : list bt_gatt_service_t
}.

Record btd_device := {
  device_path : string;
  device_address : string
}.

(** [struct btd_gatt_client]. *)
Record btd_gatt_client := {
  device : btd_device;
  devaddr : string;
  gatt : option bt_gatt_client;
  gatt_cb_id : Z;
  services : list service
}.

Definition with_gatt (g : option bt_gatt_client) (c : btd_gatt_client)
    : btd_gatt_client :=
  {| device := device c; devaddr := devaddr c; gatt := g;
     gatt_cb_id := gatt_cb_id c; services := services c |}.

Definition with_services (l : list service) (c : btd_gatt_client)
    : btd_gatt_client :=
  {| device := device c; devaddr := devaddr c; gatt := gatt c;
     gatt_cb_id := gatt_cb_id c; services := l |}.

(** [struct chrc_dbus_op]: the method call waiting for its reply. *)
Record chrc_dbus_op := { op_msg : nat }.

(** A function handed to [g_idle_add] with the client as its data. *)
Inductive idle_cb := set_chrcs_ready_cb.

(** The calls out of the file. *)
Inductive event :=
| Registered (path iface : string)
| Unregistered (path iface : string)
| PropertyChanged (path iface name : string)
| SendMessage (reply : option DBusMessage)
| ReadLongValue (gatt : option nat) (value_handle offset : Z)
                (op : chrc_dbus_op) (started : bool)
| ClientRef (gatt : nat)
| ClientUnref (gatt : option nat)
| IdleAdd (cb : idle_cb).

(* ------------------------------------------------------------------- *)
(** *** One characteristic: the cached value and [ReadValue] *)
(* ------------------------------------------------------------------- *)

(** [characteristic_property_get_value]: the bytes appended to the
    array. *)
Definition characteristic_property_get_value (chrc : characteristic)
    : list Z :=
  if value_known chrc
  then take (Z.to_nat (value_len chrc)) (value chrc)
  else [].

Definition characteristic_property_value_exists (chrc : characteristic)
    : bool :=
  if value_known chrc then true else false.

(** An entry of the [properties] table; [{ }] is an entry with no
    string. *)
Record property_entry := {
  prop : Z;
  str : option string
}.

Section Flags.
Context `{prop_bits}.

Definition properties : list property_entry :=
  [ {| prop := BT_GATT_CHRC_PROP_BROADCAST; str := Some "broadcast" |};
    {| prop := BT_GATT_CHRC_PROP_READ; str := Some "read" |};
    {| prop := BT_GATT_CHRC_PROP_WRITE_WITHOUT_RESP;
       str := Some "write-without-response" |};
    {| prop := BT_GATT_CHRC_PROP_WRITE; str := Some "write" |};
    {| prop := BT_GATT_CHRC_PROP_NOTIFY; str := Some "notify" |};
    {| prop := BT_GATT_CHRC_PROP_INDICATE; str := Some "indicate" |};
    {| prop := BT_GATT_CHRC_PROP_AUTH;
       str := Some "authenticated-signed-writes" |};
    {| prop := BT_GATT_CHRC_PROP_EXT_PROP;
       str := Some "extended-properties" |};
    {| prop := 0; str := None |};
    {| prop := BT_GATT_CHRC_EXT_PROP_RELIABLE_WRITE;
       str := Some "reliable-write" |};
    {| prop := BT_GATT_CHRC_EXT_PROP_WRITABLE_AUX;
       str := Some "writable-auxiliaries" |};
    {| prop := 0; str := None |} ].

(** The [for] loop of [characteristic_property_get_flags] over the rest of
    the table: it goes on while the entry has a string. *)
Fixpoint flags_loop (table : list property_entry) (bits : Z)
    : list string :=
  match table with
  | [] => []
  | entry :: rest =>
      match str entry with
      | None => []
      | Some name =>
          (if Z.land bits (prop entry) =? 0 then [] else [name])
            ++ flags_loop rest bits
      end
  end.

(** [characteristic_property_get_flags]: the strings appended to the
    array. *)
Definition characteristic_property_get_flags (chrc : characteristic)
    : list string :=
  flags_loop properties (props chrc).
End Flags.

(** [memcmp(a, b, n) == 0] *)
Definition memcmp_eq (a b : list Z) (n : Z) : bool :=
  bool_decide (take (Z.to_nat n) a = take (Z.to_nat n) b).

Local Open Scope monad_scope.

(** [chrc_resize_value]. *)
Definition chrc_resize_value (h : heap) (new_size : Z)
    : M characteristic event bool :=
  chrc <- get ;;
  if value_len chrc =? new_size then ret true
  else if new_size =? 0 then
    put (with_value_len 0 (with_value [] chrc)) ;;
    ret true
  else
    match realloc h (value chrc) new_size with
    | None => ret false
    | Some ptr =>
        put (with_value_len new_size (with_value ptr chrc)) ;;
        ret true
    end.

Section ReadValue.
Context `{headers}.

(** [chrc_read_long_cb].  [reply_ok] is whether [g_dbus_create_reply]
    returns a message; [length] is a [uint16_t]. *)
Definition chrc_read_long_cb (h : heap) (reply_ok : bool)
    (op : chrc_dbus_op) (success : bool) (att_ecode : Z)
    (value_read : list Z) (length : Z) : M characteristic event unit :=
  let reply :=
    if negb reply_ok then ret tt
    else emit (SendMessage
                 (Some (method_return (op_msg op)
                          (take (Z.to_nat length) value_read)))) in
  let changed_signal :=
    chrc <- get ;;
    emit (PropertyChanged (chrc_path chrc) GATT_CHARACTERISTIC_IFACE
                          "Value") ;;
    reply in
  modify (with_in_read false) ;;
  if negb success
  then emit (SendMessage (create_gatt_dbus_error (op_msg op) att_ecode))
  else
    chrc <- get ;;
    if value_known chrc && (value_len chrc =? length)
       && memcmp_eq (value chrc) value_read length
    then reply
    else
      resized <- chrc_resize_value h length ;;
      if negb resized then
        modify (fun chrc =>
                  with_value_known false
                    (with_value_len 0 (with_value [] chrc))) ;;
        changed_signal
      else
        modify (with_value_known true) ;;
        modify (fun chrc =>
                  with_value (memcpy (value chrc) 0 value_read length)
                             chrc) ;;
        changed_signal.

(** [characteristic_read_value]: the reply to send at once, or [None]
    ([NULL]) when the reply comes later.  [g] is
    [chrc->service->client->gatt], [started] the return value of
    [bt_gatt_client_read_long_value]. *)
Definition characteristic_read_value (h : heap) (started : bool)
    (g : option bt_gatt_client) (msg : nat)
    : M characteristic event (option DBusMessage) :=
  chrc <- get ;;
  if in_read chrc then ret (Some (btd_error_in_progress msg))
  else if negb (alloc_ok h)
  then ret (Some (btd_error_failed msg "Failed to initialize request"))
  else
    let op := {| op_msg := msg |} in
    emit (ReadLongValue (gatt_id <$> g) (value_handle chrc) 0 op
                        started) ;;
    if started then
      modify (with_in_read true) ;;
      ret None
    else ret (Some (btd_error_failed msg "Failed to send read request")).
End ReadValue.

(** The characteristic together with the read-long requests that
    [bt_gatt_client] holds for it: a [ReadValue] call adds the request it
    started, a completion takes one out and runs the callback. *)
Record read_state := {
  rs_chrc : characteristic;
  rs_outstanding : list chrc_dbus_op
}.

Definition started_ops (evs : list event) : list chrc_dbus_op :=
  omap (fun e => match e with
                 | ReadLongValue _ _ _ op true => Some op
                 | _ => None
                 end) evs.

Section ReadSteps.
Context `{headers}.

Inductive read_step : read_state -> read_state -> Prop :=
| step_read_value h started g msg st :
    read_step st
      (let r := characteristic_read_value h started g msg (rs_chrc st) in
       {| rs_chrc := final r;
          rs_outstanding := rs_outstanding st ++ started_ops (events r) |})
| step_complete h reply_ok success att_ecode value_read length
                st before op after :
    rs_outstanding st = before ++ op :: after ->
    read_step st
      {| rs_chrc :=
           final (chrc_read_long_cb h reply_ok op success att_ecode
                                    value_read length (rs_chrc st));
         rs_outstanding := before ++ after |}.

(** A characteristic starts out as [characteristic_create] leaves it,
    with no read under way. *)
Definition read_init (st : read_state) : Prop :=
  in_read (rs_chrc st) = false /\ rs_outstanding st = [].

Definition read_reachable (st : read_state) : Prop :=
  exists st0, read_init st0 /\ rtc read_step st0 st.
End ReadSteps.

(* ------------------------------------------------------------------- *)
(** *** The client: exporting and removing the objects *)
(* ------------------------------------------------------------------- *)

(** The client, the objects registered on the bus as (path, interface),
    the functions waiting in the main loop, and what the outside answers:
    [allocs] for the next calls of [new0] and [queue_new] (all served
    when the list is used up), [reg_ok] for
    [g_dbus_register_interface]. *)
Record world := {
  client : btd_gatt_client;
  bus : gset (string * string);
  idle : list idle_cb;
  allocs : list bool;
  reg_ok : string -> string -> bool
}.

Definition with_client (c : btd_gatt_client) (w : world) : world :=
  {| client := c; bus := bus w; idle := idle w; allocs := allocs w;
     reg_ok := reg_ok w |}.

Definition with_bus (b : gset (string * string)) (w : world) : world :=
  {| client := client w; bus := b; idle := idle w; allocs := allocs w;
     reg_ok := reg_ok w |}.

Definition with_idle (l : list idle_cb) (w : world) : world :=
  {| client := client w; bus := bus w; idle := l; allocs := allocs w;
     reg_ok := reg_ok w |}.

Definition with_allocs (l : list bool) (w : world) : world :=
  {| client := client w; bus := bus w; idle := idle w; allocs := l;
     reg_ok := reg_ok w |}.

(** [new0] and [queue_new]: whether the object was allocated. *)
Definition new0 : M world event bool :=
  w <- get ;;
  match allocs w with
  | [] => ret true
  | b :: rest => put (with_allocs rest w) ;; ret b
  end.

Definition g_dbus_register_interface (path iface : string)
    : M world event bool :=
  w <- get ;;
  if reg_ok w path iface then
    put (with_bus ({[ (path, iface) ]} ∪ bus w) w) ;;
    emit (Registered path iface) ;;
    ret true
  else ret false.

Definition g_dbus_unregister_interface (path iface : string)
    : M world event unit :=
  modify (fun w => with_bus (bus w ∖ {[ (path, iface) ]}) w) ;;
  emit (Unregistered path iface).

Definition g_idle_add (cb : idle_cb) : M world event unit :=
  modify (fun w => with_idle (idle w ++ [cb]) w) ;;
  emit (IdleAdd cb).

(** [descriptor_create]. *)
Definition descriptor_create (desc_data : bt_gatt_descriptor_t)
    (chrc : characteristic) : M world event (option descriptor) :=
  allocated <- new0 ;;
  if negb allocated then ret None
  else
    let desc :=
      {| desc_path := chrc_path chrc ++ "/desc"
                        ++ fmt_04x (dd_handle desc_data);
         desc_handle := dd_handle desc_data;
         desc_uuid := dd_uuid desc_data |} in
    registered <- g_dbus_register_interface (desc_path desc)
                                            GATT_DESCRIPTOR_IFACE ;;
    if negb registered then ret None else ret (Some desc).

Definition unregister_descriptor (desc : descriptor) : M world event unit :=
  g_dbus_unregister_interface (desc_path desc) GATT_DESCRIPTOR_IFACE.

(** [characteristic_create]. *)
Definition characteristic_create (chrc_data : bt_gatt_characteristic_t)
    (service : service) : M world event (option characteristic) :=
  allocated <- new0 ;;
  if negb allocated then ret None
  else
    queue <- new0 ;;
    if negb queue then ret None
    else
      let chrc :=
        {| chrc_path := svc_path service ++ "/char"
                          ++ fmt_04x (cd_start_handle chrc_data);
           chrc_handle := cd_start_handle chrc_data;
           value_handle := cd_value_handle chrc_data;
           props := cd_properties chrc_data;
           chrc_uuid := cd_uuid chrc_data;
           in_read := false; value_known := false; value := [];
           value_len := 0; descs := [] |} in
      registered <- g_dbus_register_interface (chrc_path chrc)
                                              GATT_CHARACTERISTIC_IFACE ;;
      if negb registered then ret None else ret (Some chrc).

(** [unregister_characteristic]. *)
Definition unregister_characteristic (chrc : characteristic)
    : M world event unit :=
  foreach unregister_descriptor (descs chrc) ;;
  g_dbus_unregister_interface (chrc_path chrc) GATT_CHARACTERISTIC_IFACE.

(** [service_property_get_characteristics]: the paths appended to the
    array. *)
Definition service_property_get_characteristics (service : service)
    : list string :=
  if chrcs_ready service then map chrc_path (chrcs service) else [].

(** [service_create]. *)
Definition service_create (svc_data : bt_gatt_service_t)
    (client : btd_gatt_client) : M world event (option service) :=
  let device_path := device_path (device client) in
  allocated <- new0 ;;
  if negb allocated then ret None
  else
    queue <- new0 ;;
    if negb queue then ret None
    else
      let service :=
        {| svc_path := device_path ++ "/service"
                         ++ fmt_04x (sd_start_handle svc_data);
           primary := sd_primary svc_data;
           start_handle := sd_start_handle svc_data;
           end_handle := sd_end_handle svc_data;
           svc_uuid := sd_uuid svc_data;
           chrcs := []; chrcs_ready := false |} in
      registered <- g_dbus_register_interface (svc_path service)
                                              GATT_SERVICE_IFACE ;;
      if negb registered then ret None else ret (Some service).

(** [unregister_service]. *)
Definition unregister_service (service : service) : M world event unit :=
  foreach unregister_characteristic (chrcs service) ;;
  g_dbus_unregister_interface (svc_path service) GATT_SERVICE_IFACE.

(** [create_descriptors]: the return value and the characteristic with
    the descriptors pushed so far. *)
Fixpoint create_descriptors (descs_data : list bt_gatt_descriptor_t)
    (dbus_chrc : characteristic) : M world event (bool * characteristic) :=
  match descs_data with
  | [] => ret (true, dbus_chrc)
  | desc_data :: rest =>
      dbus_desc <- descriptor_create desc_data dbus_chrc ;;
      match dbus_desc with
      | None => ret (false, dbus_chrc)
      | Some dbus_desc =>
          create_descriptors rest
            (with_descs (descs dbus_chrc ++ [dbus_desc]) dbus_chrc)
      end
  end.

(** The [while] loop of [create_characteristics]. *)
Fixpoint create_characteristics_loop
    (chrcs_data : list bt_gatt_characteristic_t) (dbus_service : service)
    : M world event (bool * service) :=
  match chrcs_data with
  | [] => ret (true, dbus_service)
  | chrc :: rest =>
      dbus_chrc <- characteristic_create chrc dbus_service ;;
      match dbus_chrc with
      | None => ret (false, dbus_service)
      | Some dbus_chrc =>
          created <- create_descriptors (cd_descs chrc) dbus_chrc ;;
          let '(ok, dbus_chrc) := created in
          if negb ok then
            unregister_characteristic dbus_chrc ;;
            ret (false, dbus_service)
          else
            create_characteristics_loop rest
              (with_chrcs (chrcs dbus_service ++ [dbus_chrc]) dbus_service)
      end
  end.

(** [create_characteristics]. *)
Definition create_characteristics (service : bt_gatt_service_t)
    (dbus_service : Client.service) : M world event (bool * Client.service) :=
  if negb (sd_iter_ok service) then ret (false, dbus_service)
  else create_characteristics_loop (sd_chrcs service) dbus_service.

(** [notify_chrcs] on the [i]-th service of the client's queue. *)
Definition notify_chrcs (i : nat) : M world event unit :=
  modify (fun w =>
            with_client
              (with_services
                 (alter (with_chrcs_ready true) i (services (client w)))
                 (client w)) w) ;;
  w <- get ;;
  match services (client w) !! i with
  | Some service =>
      emit (PropertyChanged (svc_path service) GATT_SERVICE_IFACE
                            "Characteristics")
  | None => ret tt
  end.

(** [set_chrcs_ready]. *)
Definition set_chrcs_ready : M world event bool :=
  w <- get ;;
  match gatt (client w) with
  | None => ret false
  | Some _ =>
      foreach notify_chrcs (seq 0 (length (services (client w)))) ;;
      ret false
  end.

(** The [while] loop of [create_services]. *)
Fixpoint create_services_loop (svcs_data : list bt_gatt_service_t)
    : M world event unit :=
  match svcs_data with
  | [] => ret tt
  | service :: rest =>
      w <- get ;;
      dbus_service <- service_create service (client w) ;;
      match dbus_service with
      | None => create_services_loop rest
      | Some dbus_service =>
          created <- create_characteristics service dbus_service ;;
          let '(ok, dbus_service) := created in
          if negb ok then
            unregister_service dbus_service ;;
            create_services_loop rest
          else
            modify (fun w =>
                      with_client
                        (with_services
                           (services (client w) ++ [dbus_service])
                           (client w)) w) ;;
            create_services_loop rest
      end
  end.

(** [create_services]. *)
Definition create_services : M world event unit :=
  w <- get ;;
  match gatt (client w) with
  | None => ret tt
  | Some g =>
      if negb (gatt_iter_ok g) then ret tt
      else
        create_services_loop (gatt_services g) ;;
        g_idle_add set_chrcs_ready_cb
  end.

(** [gatt_ready_cb]. *)
Definition gatt_ready_cb (g : bt_gatt_client) : M world event unit :=
  emit (ClientRef (gatt_id g)) ;;
  modify (fun w => with_client (with_gatt (Some g) (client w)) w) ;;
  create_services.

(** [gatt_disconn_cb].  [queue_remove_all] takes the entries off the
    queue and hands each to [unregister_service]. *)
Definition gatt_disconn_cb : M world event unit :=
  w <- get ;;
  modify (fun w => with_client (with_services [] (client w)) w) ;;
  foreach unregister_service (services (client w)) ;;
  w <- get ;;
  emit (ClientUnref (gatt_id <$> gatt (client w))) ;;
  modify (fun w => with_client (with_gatt None (client w)) w).

(** The main loop runs the function that has waited longest;
    [set_chrcs_ready] returns [FALSE] and so is not run again. *)
Definition dispatch_idle : M world event unit :=
  w <- get ;;
  match idle w with
  | [] => ret tt
  | set_chrcs_ready_cb :: rest =>
      put (with_idle rest w) ;;
      set_chrcs_ready ;;
      ret tt
  end.

(** Every object of a service that is registered under its own path. *)
Definition chrc_objects (chrc : characteristic) : list (string * string) :=
  (chrc_path chrc, GATT_CHARACTERISTIC_IFACE)
    :: map (fun d => (desc_path d, GATT_DESCRIPTOR_IFACE)) (descs chrc).

Definition service_objects (service : service) : list (string * string) :=
  (svc_path service, GATT_SERVICE_IFACE)
    :: concat (map chrc_objects (chrcs service)).

(** What [create_services] builds for the remote database when nothing
    fails. *)
Definition mirror_descriptor (chrc_path : string)
    (d : bt_gatt_descriptor_t) : descriptor :=
  {| desc_handle := dd_handle d; desc_uuid := dd_uuid d;
     desc_path := chrc_path ++ "/desc" ++ fmt_04x (dd_handle d) |}.

Definition mirror_characteristic (svc_path : string)
    (c : bt_gatt_characteristic_t) : characteristic :=
  let path := (svc_path ++ "/char" ++ fmt_04x (cd_start_handle c))%string in
  {| chrc_handle := cd_start_handle c; value_handle := cd_value_handle c;
     props := cd_properties c; chrc_uuid := cd_uuid c; chrc_path := path;
     in_read := false; value_known := false; value := []; value_len := 0;
     descs := map (mirror_descriptor path) (cd_descs c) |}.

Definition mirror_service (device_path : string) (s : bt_gatt_service_t)
    : service :=
  let path :=
    (device_path ++ "/service" ++ fmt_04x (sd_start_handle s))%string in
  {| primary := sd_primary s; start_handle := sd_start_handle s;
     end_handle := sd_end_handle s; svc_uuid := sd_uuid s;
     svc_path := path;
     chrcs := map (mirror_characteristic path) (sd_chrcs s);
     chrcs_ready := false |}.

End Client.

(* ===================================================================== *)
(** ** tools/btgatt-server.c: the start of the server and the console *)
(* ===================================================================== *)

Module Console.
Import Server.

Definition TAB : string := String (ascii_of_nat 9) EmptyString.






(** The [command] table. *)
Inductive command_func := func_cmd_help | func_cmd_notify.

Record command_entry := {
  cmd : string;
  func : command_func;
  doc : string
}.

Definition command : list command_entry :=
  [ {| cmd := "help"; func := func_cmd_help;
       doc := TAB ++ "Display help message" |};
    {| cmd := "notify"; func := func_cmd_notify;
       doc := TAB ++ "Send handle-value notification" |} ].

(** [printf]'s [%-15s]. *)
Definition pad15 (str : string) : string :=
  (str ++ string_of_list_ascii
            (repeat " "%char (15 - String.length str)))%string.

(** [cmd_help]. *)
Definition cmd_help (s : server) (cmd_str : option string) : list event :=
  Printf ("Commands:" ++ LF)%string
    :: map (fun c => Printf (TAB ++ pad15 (cmd c) ++ TAB ++ doc c ++ LF)%string)
           command.

(** What the console callback does to the outside: the output of a
    command, the prompt ([print_prompt]), text on standard error, and
    [mainloop_quit]. *)
Inductive console_event :=
| Run (e : event)
| Prompt
| Stderr (text : string)
| MainloopQuit.

(** The [while] loop of [prompt_read_cb]: the first token that is not
    empty, and what [args] is then. *)
Fixpoint first_token (fuel : nat) (args : option string)
    : option string * option string :=
  match fuel with
  | O => (None, args)
  | S fuel =>
      match strsep args with
      | (None, args) => (None, args)
      | (Some cmd, args) =>
          if negb (String.eqb cmd EmptyString) then (Some cmd, args)
          else first_token fuel args
      end
  end.

(** [prompt_read_cb].  [hangup] is whether [events] has one of
    [EPOLLRDHUP], [EPOLLHUP], [EPOLLERR]; [input] is the line [getline]
    returns with its newline, [None] when it returns -1.  The other inputs
    are those of [cmd_notify]. *)
Definition prompt_read_cb (h : heap) (errno send_ok : bool) (s : server)
    (hangup : bool) (input : option string) : list console_event :=
  if hangup then [MainloopQuit]
  else
    match input with
    | None => []
    | Some line =>
        let read := String.length line in
        if (read <=? 1)%nat then map Run (cmd_help s None) ++ [Prompt]
        else
          let line := String.substring 0 (read - 1) line in
          let '(cmd1, args) :=
            first_token (S (strsep_measure (Some line))) (Some line) in
          match cmd1 with
          | None => [Prompt]
          | Some cmd1 =>
              match find (fun c => String.eqb (cmd c) cmd1) command with
              | Some c =>
                  map Run
                      (match func c with
                       | func_cmd_help => cmd_help s args
                       | func_cmd_notify => cmd_notify h errno send_ok s args
                       end)
                    ++ [Prompt]
              | None =>
                  (* [line] now ends where [strsep] put its first NUL *)
                  [Stderr ("Unknown command: " ++ (strsep_scan line).1 ++ LF)%string;
                   Prompt]
              end
          end
    end.

End Console.

(* ===================================================================== *)
(** ** The vocabulary of the statements *)
(* ===================================================================== *)

Import Server.

(** The written bytes of a (pointer, length) pair. *)
Definition buf_bytes (value : option (list Z)) : list Z :=
  match value with
  | Some v => v
  | None => []
  end.

(** A server whose device name is "Hello". *)
Definition sample_server : server :=
  {| fd := 3; db := 1%nat; gatt := 2%nat;
     device_name := [72; 101; 108; 108; 111]; name_len := 5;
     svc_chngd_enabled := false |}.

(** An allocator that resizes in place, one whose [realloc] moves the block
    and clears the one it frees, and one that refuses. *)
Definition sample_heap : heap :=
  {| alloc_ok := true; fresh := fun _ => 0xAA;
     moved := false; stale := fun _ => 0 |}.

Definition moving_heap : heap :=
  {| alloc_ok := true; fresh := fun _ => 0xAA;
     moved := true; stale := fun _ => 0 |}.

Definition failing_heap : heap :=
  {| alloc_ok := false; fresh := fun _ => 0;
     moved := false; stale := fun _ => 0 |}.

(** Whether an output of the command is a notification or an indication
    on the given handle. *)
Definition sends_on (handle : Z) (e : Server.event) : Prop :=
  match e with
  | SendIndication _ hd _ _ | SendNotification _ hd _ _ => hd = handle
  | _ => False
  end.

Import Client.

(** [in_read] is up exactly while one request is with [bt_gatt_client]. *)
Definition read_inv (st : read_state) : Prop :=
  (in_read (rs_chrc st) = true /\ length (rs_outstanding st) = 1%nat)
  \/ (in_read (rs_chrc st) = false /\ rs_outstanding st = []).

Definition is_unregistered (e : event) : Prop :=
  match e with
  | Unregistered _ _ => True
  | _ => False
  end.

(** [m] takes the objects [objs] off the bus and does nothing else. *)
Definition removes (m : M world event unit) (objs : list (string * string))
    : Prop :=
  forall w,
    final (m w) = with_bus (bus w ∖ list_to_set objs) w /\
    Forall is_unregistered (events (m w)).

Definition is_bus_event (e : event) : Prop :=
  match e with
  | Registered _ _ | Unregistered _ _ => True
  | _ => False
  end.

(** [m] returns a result with [P], touches nothing of the world but the bus
    and the allocator's answers, and calls only the bus registry. *)
Definition yields {A} (m : M world event A) (P : A -> Prop) : Prop :=
  forall w,
    P (result (m w)) /\
    client (final (m w)) = client w /\
    idle (final (m w)) = idle w /\
    reg_ok (final (m w)) = reg_ok w /\
    Forall is_bus_event (events (m w)).

(** Every allocation is served and every registration accepted. *)
Definition calm (w : world) : Prop :=
  allocs w = [] /\ forall path iface, reg_ok w path iface = true.

(** In a calm world [m] returns [a] and puts the objects [objs] on the bus,
    and does nothing else to the world. *)
Definition adds {A} (m : M world event A) (a : A)
    (objs : list (string * string)) : Prop :=
  forall w, calm w ->
    result (m w) = a /\
    final (m w) = with_bus (list_to_set objs ∪ bus w) w.

Definition desc_object (d : descriptor) : string * string :=
  (desc_path d, GATT_DESCRIPTOR_IFACE).

Definition chrcs_signal (s : service) : event :=
  PropertyChanged (svc_path s) GATT_SERVICE_IFACE "Characteristics".

Definition value_signal (c : characteristic) : event :=
  PropertyChanged (chrc_path c) GATT_CHARACTERISTIC_IFACE "Value".

Definition is_message (e : event) : bool :=
  match e with
  | SendMessage _ => true
  | _ => false
  end.

(** What a D-Bus client can see of the cached value: whether the Value
    property exists, and what it reads as. *)
Definition value_property (c : characteristic) : bool * list Z :=
  (characteristic_property_value_exists c,
   characteristic_property_get_value c).

Definition sample_headers : headers :=
  {| ERROR_INTERFACE := "org.bluez.Error";
     BT_ATT_ERROR_INSUFFICIENT_ENCRYPTION_KEY_SIZE := 0x0C |}.

Definition sample_chrc : characteristic :=
  {| chrc_handle := 2; value_handle := 3; props := 2; chrc_uuid := [];
     chrc_path := "/org/bluez/hci0/dev_00/service0001/char0002";
     in_read := false; value_known := true; value := [1; 2];
     value_len := 2; descs := [] |}.

Definition sample_gatt : bt_gatt_client :=
  {| gatt_id := 7%nat; gatt_iter_ok := true;
     gatt_services :=
       [ {| sd_primary := true; sd_start_handle := 1; sd_end_handle := 5;
            sd_uuid := []; sd_iter_ok := true;
            sd_chrcs :=
              [ {| cd_start_handle := 2; cd_end_handle := 4;
                   cd_value_handle := 3; cd_properties := 2; cd_uuid := [];
                   cd_descs := [ {| dd_handle := 4; dd_uuid := [] |} ] |} ]
         |} ] |}.

(** A client that has nothing exported yet, in a world where no call
    fails, and the same client once [sample_gatt] has become ready. *)
Definition sample_world : world :=
  {| client :=
       {| device := {| device_path := "/org/bluez/hci0/dev_00";
                       device_address := "00" |};
          devaddr := "00"; gatt := None; gatt_cb_id := 1; services := [] |};
     bus := ∅; idle := []; allocs := []; reg_ok := fun _ _ => true |}.

Definition connected_world : world :=
  final (gatt_ready_cb sample_gatt sample_world).





Import Console.

(** A token as [parse_args] stores it: not empty, and free of the
    characters that separate tokens. *)
Definition token_ok (t : string) : Prop :=
  t <> EmptyString /\
  Forall (fun c => is_delim c = false) (list_ascii_of_string t).

Definition is_send (e : Server.event) : bool :=
  match e with
  | SendIndication _ _ _ _ | SendNotification _ _ _ _ => true
  | _ => false
  end.

(** A call into the GATT server as [cmd_notify] may make it for the
    server [s]. *)
Definition send_ok_for (s : server) (e : Server.event) : Prop :=
  match e with
  | SendIndication g hd v len | SendNotification g hd v len =>
      g = Server.gatt s /\ 1 <= hd <= UINT16_MAX /\
      len = Z.of_nat (length v) /\ len <= 512 /\
      Forall (fun b => 0 <= b < 256) v
  | _ => True
  end.

(** The value bytes of a call into the GATT server. *)
Definition send_value (e : Server.event) : list Z :=
  match e with
  | SendIndication _ _ v _ | SendNotification _ _ v _ => v
  | _ => []
  end.


(** The same for what the console puts out. *)
Definition console_send (ce : console_event) : bool :=
  match ce with
  | Run e => is_send e
  | _ => false
  end.

Definition console_send_ok (s : server) (ce : console_event) : Prop :=
  match ce with
  | Run e => send_ok_for s e
  | _ => True
  end.

Definition is_prompt (ce : console_event) : bool :=
  match ce with
  | Prompt => true
  | _ => false
  end.

(** The command word of an input line as [prompt_read_cb] finds it: the
    first token that is not empty, once the last character of the line is
    cut off. *)
Definition command_word (line : string) : option string :=
  let line := String.substring 0 (String.length line - 1) line in
  (first_token (S (strsep_measure (Some line))) (Some line)).1.

(** The case analysis of a chain of integer comparisons. *)

Ltac eqb_cases :=
  repeat match goal with
         | |- context [?a =? ?b] =>
             destruct (Z.eqb_spec a b); try lia; cbn [orb]
         end.

(* ===================================================================== *)
(** * Properties *)
(* ===================================================================== *)

(** ** Memory blocks *)

Lemma memcpy_length dst off src n :
  length (memcpy dst off src n) = length dst.
Proof. unfold memcpy. apply length_inserts. Qed.

(** A copy that stays inside the destination replaces exactly the bytes it
    covers. *)
Lemma list_inserts_inside (dst k : list Z) (off : nat) :
  (off + length k <= length dst)%nat ->
  list_inserts off k dst = take off dst ++ k ++ drop (off + length k) dst.
Proof.
  intros Hin.
  rewrite <- (take_drop off dst) at 1.
  replace off with (length (take off dst) + 0)%nat at 1
    by (rewrite length_take; lia).
  rewrite list_inserts_app_r. f_equal.
  rewrite <- (take_drop (length k) (drop off dst)) at 1.
  rewrite list_inserts_0_r by (rewrite length_take, length_drop; lia).
  by rewrite drop_drop.
Qed.

Lemma memcpy_inside dst off src n :
  0 <= off -> n = Z.of_nat (length src) ->
  off + n <= Z.of_nat (length dst) ->
  memcpy dst off src n
  = take (Z.to_nat off) dst ++ src ++ drop (Z.to_nat (off + n)) dst.
Proof.
  intros Hoff -> Hin. unfold memcpy.
  rewrite Nat2Z.id, firstn_all, list_inserts_inside by lia.
  by rewrite Z2Nat.inj_add, Nat2Z.id by lia.
Qed.

Lemma realloc_fail h old size : alloc_ok h = false -> realloc h old size = None.
Proof. unfold realloc. intros ->. by destruct (realloc_frees old size). Qed.

Lemma realloc_frees_nonzero old size :
  size <> 0 -> realloc_frees old size = false.
Proof.
  intros Hsize. unfold realloc_frees.
  by rewrite (proj2 (Z.eqb_neq _ _) Hsize).
Qed.

Lemma realloc_frees_zero old :
  old <> [] -> realloc_frees old 0 = true.
Proof. by destruct old. Qed.

Lemma realloc_length h old size blk :
  realloc h old size = Some blk -> length blk = Z.to_nat size.
Proof.
  unfold realloc. destruct (realloc_frees old size); [done|].
  destruct (alloc_ok h); [|done].
  intros [= <-]. by rewrite length_map, length_seq.
Qed.

(** The new block starts with the old bytes, as many as fit. *)
Lemma realloc_keeps h old size blk (n : nat) :
  realloc h old size = Some blk ->
  (n <= length old)%nat -> (n <= Z.to_nat size)%nat ->
  take n blk = take n old.
Proof.
  unfold realloc. destruct (realloc_frees old size); [done|].
  destruct (alloc_ok h); [|done].
  intros [= <-] Hold Hsize. apply list_eq. intros i.
  destruct (decide (i < n)%nat) as [Hi|Hi].
  - rewrite !lookup_take_lt by done.
    rewrite list_lookup_fmap, lookup_seq_lt by lia. simpl.
    destruct (lookup_lt_is_Some_2 old i) as [x Hx]; [lia|].
    by rewrite Hx, (nth_lookup_Some _ _ _ _ Hx).
  - by rewrite !lookup_take_ge by lia.
Qed.

Lemma realloc_ok h old size :
  alloc_ok h = true -> size <> 0 -> exists blk, realloc h old size = Some blk.
Proof.
  unfold realloc. intros -> Hsize.
  rewrite realloc_frees_nonzero by done. eauto.
Qed.

(** ** tools/btgatt-server.c *)


Lemma memcpy_self (blk : list Z) (n : Z) :
  n <= Z.of_nat (length blk) -> memcpy blk 0 blk n = blk.
Proof.
  intros Hn. unfold memcpy.
  rewrite list_inserts_inside by (rewrite length_take; lia).
  simpl. rewrite length_take, Nat.min_l by lia. apply take_drop.
Qed.

(** The first bytes of a block after a copy onto its start. *)
Lemma take_memcpy_start (dst src : list Z) (n : Z) (k : nat) :
  Z.of_nat k <= n -> n <= Z.of_nat (length src) ->
  n <= Z.of_nat (length dst) ->
  take k (memcpy dst 0 src n) = take k src.
Proof.
  intros Hk Hsrc Hdst. unfold memcpy.
  rewrite list_inserts_inside by (rewrite length_take; lia).
  simpl. rewrite take_app_le by (rewrite length_take; lia).
  rewrite take_take. f_equal. lia.
Qed.

(** A device name write that resizes the block: the stored name is what
    the first [memcpy] left in the first [offset] bytes, followed by the
    written bytes. *)
Lemma gap_device_name_write_resized h s offset value len blk :
  server_wf s -> 0 <= offset <= name_len s -> valid_buf value len ->
  offset + len <= SIZE_MAX -> offset + len <> name_len s ->
  realloc h (device_name s) (offset + len) = Some blk ->
  let r := gap_device_name_write_cb h s offset value len in
  let copied :=
    memcpy blk 0 (through_old_pointer h (device_name s) blk)
           (Z.min (offset + len) (name_len s)) in
  r.2 = 0 /\
  name_len r.1 = offset + len /\
  device_name r.1 = take (Z.to_nat offset) copied ++ buf_bytes value.
Proof.
  intros Hwf Hoff Hbuf Hmax Hne Hblk. unfold server_wf in Hwf.
  assert (0 <= len) as Hlen.
  { destruct value; simpl in Hbuf; lia. }
  assert (size_t (offset + len) = offset + len) as Hsz.
  { unfold size_t. apply Z.mod_small. unfold SIZE_MAX in Hmax. lia. }
  unfold gap_device_name_write_cb. rewrite Hsz.
  destruct (offset >? name_len s) eqn:Hgt; [lia|].
  destruct (offset + len =? name_len s) eqn:Heq;
    [apply Z.eqb_eq in Heq; lia|].
  simpl. rewrite Hblk.
  pose proof (realloc_length _ _ _ _ Hblk) as Hblklen.
  destruct value as [v|]; simpl in *.
  - split; [done|]. split; [done|].
    rewrite memcpy_inside by (rewrite ?memcpy_length; lia).
    rewrite drop_ge by (rewrite memcpy_length; lia).
    by rewrite app_nil_r.
  - split; [done|]. split; [done|].
    rewrite app_nil_r. symmetry. apply take_ge.
    rewrite memcpy_length. lia.
Qed.

(** A successful device name write keeps the name up to the offset and
    puts the written bytes after it, whatever the allocator leaves in the
    bytes it adds, provided the block is resized where it is and not to
    nothing. *)
Lemma gap_device_name_write_name h s offset value len :
  server_wf s -> 0 <= offset <= name_len s -> valid_buf value len ->
  offset + len <= SIZE_MAX ->
  (alloc_ok h = true /\ moved h = false /\ offset + len <> 0)
  \/ offset + len = name_len s ->
  let r := gap_device_name_write_cb h s offset value len in
  r.2 = 0 /\
  name_len r.1 = offset + len /\
  device_name r.1 = take (Z.to_nat offset) (device_name s) ++ buf_bytes value.
Proof.
  intros Hwf Hoff Hbuf Hmax Hcase.
  destruct (decide (offset + len = name_len s)) as [Heq|Hne].
  - (* the block has the right size already *)
    unfold server_wf in Hwf.
    assert (size_t (offset + len) = offset + len) as Hsz.
    { unfold size_t. apply Z.mod_small. unfold SIZE_MAX in Hmax.
      destruct value; simpl in Hbuf; lia. }
    unfold gap_device_name_write_cb. rewrite Hsz.
    destruct (offset >? name_len s) eqn:Hgt; [lia|].
    rewrite (proj2 (Z.eqb_eq _ _) Heq). simpl.
    destruct value as [v|]; simpl in *.
    + split; [done|]. split; [lia|].
      rewrite memcpy_inside by lia.
      rewrite drop_ge by lia. by rewrite app_nil_r.
    + split; [done|]. split; [lia|].
      rewrite app_nil_r, take_ge by lia. done.
  - destruct Hcase as [(Hok & Hplace & Hsome)|]; [|lia].
    destruct (realloc_ok h (device_name s) (offset + len) Hok Hsome)
      as [blk Hblk].
    destruct (gap_device_name_write_resized h s offset value len blk)
      as (He & Hl & Hname); try done.
    split; [done|]. split; [done|]. rewrite Hname. f_equal.
    pose proof (realloc_length _ _ _ _ Hblk) as Hblklen.
    unfold server_wf in Hwf.
    assert (0 <= len) by (destruct value; simpl in Hbuf; lia).
    unfold through_old_pointer. rewrite Hplace.
    rewrite memcpy_self by lia.
    apply (realloc_keeps _ _ _ _ _ Hblk); lia.
Qed.

(** When [realloc] moves the block, the bytes before the offset are the
    ones found in the freed block, not those of the old name. *)
Lemma gap_device_name_write_moved h s offset value len :
  server_wf s -> 0 <= offset <= name_len s -> valid_buf value len ->
  offset + len <= SIZE_MAX -> offset + len <> name_len s ->
  offset + len <> 0 -> alloc_ok h = true -> moved h = true ->
  let r := gap_device_name_write_cb h s offset value len in
  r.2 = 0 /\
  device_name r.1
  = map (stale h) (seq 0 (Z.to_nat offset)) ++ buf_bytes value.
Proof.
  intros Hwf Hoff Hbuf Hmax Hne Hsome Hok Hmoved.
  destruct (realloc_ok h (device_name s) (offset + len) Hok Hsome)
    as [blk Hblk].
  destruct (gap_device_name_write_resized h s offset value len blk)
    as (He & Hl & Hname); try done.
  split; [done|]. rewrite Hname. f_equal.
  pose proof (realloc_length _ _ _ _ Hblk) as Hblklen.
  unfold server_wf in Hwf.
  assert (0 <= len) by (destruct value; simpl in Hbuf; lia).
  unfold through_old_pointer. rewrite Hmoved.
  rewrite take_memcpy_start
    by (rewrite ?length_map, ?length_seq; lia).
  rewrite <- fmap_take, take_seq. f_equal. f_equal. lia.
Qed.

(** C1 as stated does not hold: a write of [01 00] (enable notifications)
    at offset 0 to the Service Changed CCC is answered with the error 0x80,
    not with success. *)
Lemma ccc_write_notify_is_refused :
  (gatt_svc_chngd_ccc_write_cb sample_server 0 (Some [0x01; 0x00]) 2).2 = 0x80
  /\ ~ (forall s b1,
          (gatt_svc_chngd_ccc_write_cb s 0 (Some [0x01; b1]) 2).2 = 0).
Proof.
  split; [reflexivity|].
  intros Hall. specialize (Hall sample_server 0). discriminate Hall.
Qed.

(** C1, amended: for every 2-byte write at offset 0 to the Service Changed
    CCC, a first byte 0x02 sets the indication-enabled flag and completes
    without error, a first byte 0x00 clears it and completes without error,
    and every other first byte, 0x01 (notify) among them, completes with
    the error 0x80 and leaves the server as it was. *)
Theorem ccc_write_two_bytes (s : server) (b0 b1 : Z) :
  let r := gatt_svc_chngd_ccc_write_cb s 0 (Some [b0; b1]) 2 in
  (b0 = 0x02 -> r = (with_svc_chngd_enabled s true, 0)
                /\ svc_chngd_enabled r.1 = true) /\
  (b0 = 0x00 -> r = (with_svc_chngd_enabled s false, 0)
                /\ svc_chngd_enabled r.1 = false) /\
  (b0 <> 0x00 -> b0 <> 0x02 -> r = (s, 0x80)) /\
  (b0 = 0x01 -> r = (s, 0x80)).
Proof.
  unfold gatt_svc_chngd_ccc_write_cb. simpl.
  repeat split; intros; subst; simpl; try reflexivity.
  all: destruct (b0 =? 0) eqn:E0; [apply Z.eqb_eq in E0; lia|].
  all: destruct (b0 =? 2) eqn:E2; [apply Z.eqb_eq in E2; lia|].
  all: reflexivity.
Qed.

Lemma ccc_write_two_bytes_witness :
  gatt_svc_chngd_ccc_write_cb sample_server 0 (Some [0x01; 0x00]) 2
  = (sample_server, 0x80)
  /\ svc_chngd_enabled
       (gatt_svc_chngd_ccc_write_cb sample_server 0 (Some [0x02; 0x00]) 2).1
     = true.
Proof.
  split.
  - apply (ccc_write_two_bytes sample_server 0x01 0x00). reflexivity.
  - apply (ccc_write_two_bytes sample_server 0x02 0x00). reflexivity.
Defined.

(** What the CCC reads as follows what was written to it. *)
Example ccc_read_after_write :
  rr_bytes (gatt_svc_chngd_ccc_read_cb
              (gatt_svc_chngd_ccc_write_cb sample_server 0
                 (Some [0x02; 0x00]) 2).1)
  = [0x02; 0x00].
Proof. reflexivity. Qed.

(** C2: a write to the Service Changed CCC whose value is absent or not
    exactly 2 bytes long completes with INVALID_ATTRIBUTE_VALUE_LENGTH
    (0x0D); otherwise, with a nonzero offset, it completes with
    INVALID_OFFSET (0x07); and whenever the write completes with a nonzero
    error code the server, its indication-enabled flag included, is
    unchanged. *)
Theorem ccc_write_errors (s : server) (offset : Z) (value : option (list Z))
    (len : Z) :
  let r := gatt_svc_chngd_ccc_write_cb s offset value len in
  (value = None \/ len <> 2 -> r.2 = 0x0D) /\
  (value <> None -> len = 2 -> offset <> 0 -> r.2 = 0x07) /\
  (r.2 <> 0 -> r.1 = s /\ svc_chngd_enabled r.1 = svc_chngd_enabled s).
Proof.
  unfold gatt_svc_chngd_ccc_write_cb.
  destruct value as [v|]; simpl.
  - destruct (len =? 2) eqn:Hlen; simpl.
    + apply Z.eqb_eq in Hlen.
      destruct (offset =? 0) eqn:Hoff; simpl.
      * apply Z.eqb_eq in Hoff.
        split; [intros [|]; [done|lia]|]. split; [lia|].
        destruct (nth 0 v 0 =? 0); simpl; [done|].
        destruct (nth 0 v 0 =? 2); simpl; done.
      * split; [intros [|]; [done|lia]|]. done.
    + apply Z.eqb_neq in Hlen. split; [done|]. split; [lia|done].
  - split; [done|]. split; [done|done].
Qed.

Lemma ccc_write_errors_witness :
  (gatt_svc_chngd_ccc_write_cb sample_server 0 (Some [0x02]) 1).2 = 0x0D
  /\ (gatt_svc_chngd_ccc_write_cb sample_server 1 (Some [0x02; 0x00]) 2).2
     = 0x07.
Proof.
  split.
  - apply (ccc_write_errors sample_server 0 (Some [0x02]) 1). right. lia.
  - apply (ccc_write_errors sample_server 1 (Some [0x02; 0x00]) 2);
      [discriminate | reflexivity | lia].
Defined.

(** C3: a read of the GAP Device Name at an offset up to the length L of
    the stored name completes without error with exactly the bytes of the
    name from the offset to L-1, which are L - offset bytes and none when
    the offset is L; a read at an offset beyond L completes with
    INVALID_OFFSET (0x07). *)
Theorem gap_device_name_read (s : server) (offset : Z) :
  server_wf s -> 0 <= offset <= UINT16_MAX ->
  let L := name_len s in
  let r := gap_device_name_read_cb s offset in
  (offset <= L ->
     rr_error r = 0 /\
     rr_len r = L - offset /\
     rr_bytes r = drop (Z.to_nat offset) (device_name s) /\
     Z.of_nat (length (rr_bytes r)) = L - offset /\
     (forall i : nat, Z.of_nat i < L - offset ->
        rr_bytes r !! i = device_name s !! (Z.to_nat offset + i)%nat) /\
     (offset = L -> rr_bytes r = [])) /\
  (offset > L -> rr_error r = 0x07).
Proof.
  intros Hwf Hoff L r. subst L r. unfold server_wf in Hwf.
  unfold gap_device_name_read_cb.
  destruct (offset >? name_len s) eqn:Hgt.
  - split; [lia|]. reflexivity.
  - split; [|lia]. intros _.
    assert (rr_bytes
              {| rr_error := 0;
                 rr_value :=
                   if name_len s - offset =? 0 then None
                   else Some (drop (Z.to_nat offset) (device_name s));
                 rr_len := name_len s - offset |}
            = drop (Z.to_nat offset) (device_name s)) as Hbytes.
    { unfold rr_bytes. simpl.
      destruct (name_len s - offset =? 0) eqn:Hz.
      - apply Z.eqb_eq in Hz. rewrite drop_ge by lia. done.
      - apply take_ge. rewrite length_drop. lia. }
    rewrite Hbytes. simpl.
    split; [done|]. split; [done|]. split; [done|].
    split; [rewrite length_drop; lia|].
    split; [intros i _; apply lookup_drop|].
    intros ->. apply drop_ge. lia.
Qed.

Lemma gap_device_name_read_witness :
  rr_bytes (gap_device_name_read_cb sample_server 2) = [108; 108; 111]
  /\ rr_error (gap_device_name_read_cb sample_server 6) = 0x07.
Proof.
  assert (server_wf sample_server) as Hwf by reflexivity.
  split.
  - assert (0 <= 2 <= UINT16_MAX) as Hoff by (unfold UINT16_MAX; lia).
    destruct (gap_device_name_read sample_server 2 Hwf Hoff) as [Hin _].
    destruct Hin as (_ & _ & Hb & _); [simpl; lia|]. exact Hb.
  - assert (0 <= 6 <= UINT16_MAX) as Hoff by (unfold UINT16_MAX; lia).
    destruct (gap_device_name_read sample_server 6 Hwf Hoff) as [_ Hout].
    apply Hout. simpl. lia.
Defined.

(** With a block that is resized where it is, and not to 0 bytes, a write
    to the GAP Device Name with old name of length L, offset o and a value
    of n bytes does what is expected of it: with o > L it completes with
    INVALID_OFFSET and the stored name is unchanged; with o <= L and the
    reallocation (if one is needed) successful it completes without error
    and the stored name then has length exactly o + n, its first min(o, L)
    bytes are those of the old name and its bytes o..o+n-1 are the written
    value; when the allocator refuses the reallocation it completes with
    INSUFFICIENT_RESOURCES (0x11) and the stored name is unchanged. *)
Lemma gap_device_name_write_in_place (h : heap) (s : server) (o : Z)
    (value : option (list Z)) (n : Z) :
  server_wf s -> 0 <= o <= UINT16_MAX -> valid_buf value n ->
  o + n <= SIZE_MAX ->
  let L := name_len s in
  let r := gap_device_name_write_cb h s o value n in
  (o > L -> r = (s, 0x07)) /\
  (o <= L ->
   (alloc_ok h = true /\ moved h = false /\ o + n <> 0) \/ o + n = L ->
     r.2 = 0 /\
     name_len r.1 = o + n /\
     Z.of_nat (length (device_name r.1)) = o + n /\
     take (Z.to_nat (Z.min o L)) (device_name r.1)
       = take (Z.to_nat (Z.min o L)) (device_name s) /\
     drop (Z.to_nat o) (device_name r.1) = buf_bytes value /\
     (forall i : nat, Z.of_nat i < n ->
        device_name r.1 !! (Z.to_nat o + i)%nat = buf_bytes value !! i) /\
     server_wf r.1) /\
  (o <= L -> alloc_ok h = false -> o + n <> L -> o + n <> 0 ->
   r = (s, 0x11)).
Proof.
  intros Hwf Ho Hbuf Hmax L r. subst L.
  assert (0 <= n /\ Z.of_nat (length (buf_bytes value)) = n) as [Hn Hbytes].
  { destruct value; simpl in *; lia. }
  split; [|split].
  - intros Hgt. subst r. unfold gap_device_name_write_cb.
    destruct (o >? name_len s) eqn:E; [done|lia].
  - intros Hle Hcase.
    destruct (gap_device_name_write_name h s o value n)
      as (He & Hl & Hname); [done|lia|done|done|done|].
    fold r in He, Hl, Hname.
    pose proof Hwf as Hwf'. unfold server_wf in Hwf'.
    assert (length (take (Z.to_nat o) (device_name s)) = Z.to_nat o) as Htl.
    { rewrite length_take. lia. }
    split; [done|]. split; [done|].
    split; [rewrite Hname, length_app, Htl; lia|].
    rewrite Z.min_l by lia.
    split; [rewrite Hname, take_app_length' by done; done|].
    split; [rewrite Hname, drop_app_length' by done; done|].
    split.
    + intros i Hi. rewrite Hname, lookup_app_r by lia.
      f_equal. lia.
    + unfold server_wf. rewrite Hl, Hname, length_app, Htl. lia.
  - intros Hle Hfail Hne Hsome. subst r. unfold gap_device_name_write_cb.
    assert (size_t (o + n) = o + n) as ->.
    { unfold size_t. apply Z.mod_small. unfold SIZE_MAX in Hmax. lia. }
    destruct (o >? name_len s) eqn:E; [lia|].
    destruct (o + n =? name_len s) eqn:E'; [apply Z.eqb_eq in E'; lia|].
    simpl. rewrite realloc_fail by done. unfold after_null.
    rewrite realloc_frees_nonzero by done. by destruct s.
Qed.

(** X12: the write of no bytes at offset 0 over a name that is not empty
    asks [realloc] for 0 bytes, which frees the block and returns [NULL]:
    the callback reports INSUFFICIENT_RESOURCES and leaves [device_name]
    pointing at the freed block, with [name_len] as it was. *)
Lemma gap_device_name_write_nothing (h : heap) (s : server)
    (value : option (list Z)) :
  server_wf s -> 0 < name_len s ->
  let r := gap_device_name_write_cb h s 0 value 0 in
  r.2 = 0x11 /\
  name_len r.1 = name_len s /\
  device_name r.1 = map (stale h) (seq 0 (length (device_name s))).
Proof.
  intros Hwf Hlen. unfold server_wf in Hwf.
  unfold gap_device_name_write_cb. change (size_t (0 + 0)) with 0.
  destruct (0 >? name_len s) eqn:E; [lia|].
  destruct (0 =? name_len s) eqn:E'; [apply Z.eqb_eq in E'; lia|].
  assert (realloc_frees (device_name s) 0 = true) as Hfrees.
  { apply realloc_frees_zero. intros Hnil. rewrite Hnil in Hwf.
    simpl in Hwf. lia. }
  simpl. unfold realloc, after_null. by rewrite Hfrees.
Qed.

Example gap_device_name_write_appends :
  gap_device_name_write_cb sample_heap sample_server 5 (Some [33]) 1
  = (with_name_len (with_name sample_server [72; 101; 108; 108; 111; 33]) 6,
     0).
Proof. reflexivity. Qed.

(** C4 is not met by the code.  The stored name is "Hello" (L = 5) and one
    byte, 0x21, is written at offset 5, so o <= L and the name should
    become "Hello!".  [realloc] succeeds and moves the block; the callback
    then copies min(o + n, L) bytes from the old pointer, which [realloc]
    has freed, over the start of the new block.  The write completes
    without error and the stored name has length o + n with the written
    byte at o, but its first min(o, L) bytes are those found in the freed
    block, here zeros, and not the bytes of the old name. *)
Theorem gap_device_name_write_use_after_free :
  let r := gap_device_name_write_cb moving_heap sample_server 5 (Some [33]) 1 in
  r.2 = 0 /\
  name_len r.1 = 6 /\
  device_name r.1 = [0; 0; 0; 0; 0; 33] /\
  take 5 (device_name r.1) <> take 5 (device_name sample_server).
Proof.
  repeat split; try reflexivity. discriminate.
Qed.

(** *** The [notify] command *)

Lemma strsep_scan_measure s tok rest :
  strsep_scan s = (tok, rest) -> (strsep_measure rest <= String.length s)%nat.
Proof.
  revert tok rest. induction s as [|c s IH]; intros tok rest; simpl.
  - intros [= <- <-]. simpl. lia.
  - destruct (is_delim c).
    + intros [= <- <-]. simpl. lia.
    + destruct (strsep_scan s) as [tok' rest'] eqn:Hs.
      intros [= <- <-]. specialize (IH _ _ eq_refl). lia.
Qed.

(** The loop of [parse_args] ends by itself: any count above the measure
    of the string gives the same result, so the count [parse_args] starts
    it with never runs out. *)
Lemma parse_args_loop_fuel (n m : nat) str expected argv argc :
  (strsep_measure str < n)%nat -> (strsep_measure str < m)%nat ->
  parse_args_loop n str expected argv argc
  = parse_args_loop m str expected argv argc.
Proof.
  revert m str argv argc.
  induction n as [|n IH]; intros m str argv argc Hn Hm; [lia|].
  destruct m as [|m]; [lia|]. simpl.
  destruct str as [s|]; simpl; [|done].
  destruct (strsep_scan s) as [tok rest] eqn:Hs.
  pose proof (strsep_scan_measure _ _ _ Hs) as Hrest. simpl in Hn, Hm.
  destruct (String.eqb tok EmptyString); [apply IH; lia|].
  destruct (argc + 1 >? expected); [done|]. apply IH; lia.
Qed.

Lemma parse_args_enough_fuel (extra : nat) str expected argc :
  parse_args_loop (S (strsep_measure str) + extra) str expected [] argc
  = parse_args str expected argc.
Proof. apply parse_args_loop_fuel; lia. Qed.

Lemma uint16_range z : 0 <= uint16 z <= UINT16_MAX.
Proof.
  unfold uint16, UINT16_MAX.
  pose proof (Z.mod_pos_bound z (2 ^ 16)). lia.
Qed.

(** C9: the [notify] command never sends a notification or an indication
    on handle 0x0000, and for every command line whose handle token parses
    to 0, or does not parse as a full hexadecimal number, it prints
    "Invalid handle" and calls neither
    [bt_gatt_server_send_notification] nor
    [bt_gatt_server_send_indication]. *)
Theorem cmd_notify_handle_zero (h : heap) (errno send_ok : bool) (s : server)
    (cmd_str : option string) :
  let out := cmd_notify h errno send_ok s cmd_str in
  (forall e, e ∈ out -> ~ sends_on 0 e) /\
  (forall tok,
     handle_token cmd_str = Some tok ->
     (strtol16 tok).1.1 = 0 \/ at_end tok (strtol16 tok).1.2 = false ->
     out = [Printf ("Invalid handle: " ++ tok ++ LF)%string]
     /\ forall e hd, e ∈ out -> ~ sends_on hd e).
Proof.
  unfold cmd_notify, handle_token.
  destruct (parse_args cmd_str 514 1) as [[ok args] argc].
  destruct ok; simpl.
  2:{ split; [|done]. intros e He.
      repeat (apply elem_of_cons in He as [->|He]; [simpl; tauto|]).
      by apply elem_of_nil in He. }
  destruct (getopt_scan args false 1) as [[indicate optind]|].
  2:{ split; [|done]. intros e He.
      repeat (apply elem_of_cons in He as [->|He]; [simpl; tauto|]).
      by apply elem_of_nil in He. }
  destruct (argc - optind <? 1).
  { split; [|done]. intros e He.
    repeat (apply elem_of_cons in He as [->|He]; [simpl; tauto|]).
    by apply elem_of_nil in He. }
  set (argv0 := hd EmptyString (drop (Z.to_nat (optind - 1)) args)).
  destruct (strtol16 argv0) as [[v endptr] erange] eqn:Hconv.
  destruct (negb (at_end argv0 endptr) || (uint16 v =? 0))%bool eqn:Hbad.
  - split.
    + intros e He.
      repeat (apply elem_of_cons in He as [->|He]; [simpl; tauto|]).
      by apply elem_of_nil in He.
    + intros tok [= <-] _. split; [done|]. intros e hd He.
      repeat (apply elem_of_cons in He as [->|He]; [simpl; tauto|]).
      by apply elem_of_nil in He.
  - apply orb_false_iff in Hbad as [Hend Hzero].
    apply negb_false_iff in Hend. apply Z.eqb_neq in Hzero.
    split.
    + intros e He Hsend.
      destruct (argc - optind - 1 >? 0);
        [destruct (argc - optind - 1 >? UINT16_MAX);
         [|destruct (negb (alloc_ok h));
           [|destruct (parse_value _ _)]]|];
        try destruct indicate; try destruct send_ok;
        repeat (apply elem_of_cons in He as [->|He];
                [simpl in Hsend; try tauto; try lia|]);
        by apply elem_of_nil in He.
    + intros tok [= <-]. rewrite Hconv. simpl.
      intros [Hv|Hne]; [|congruence].
      subst v. by contradict Hzero.
Qed.

Lemma cmd_notify_handle_zero_witness :
  cmd_notify sample_heap false true sample_server (Some "-i 0x0000 01 02"%string)
  = [Printf ("Invalid handle: 0x0000" ++ LF)%string].
Proof.
  destruct (cmd_notify_handle_zero sample_heap false true sample_server
              (Some "-i 0x0000 01 02"%string)) as [_ Htok].
  destruct (Htok "0x0000"%string) as [Hout _].
  - reflexivity.
  - left. reflexivity.
  - exact Hout.
Defined.

(** The same command line with handle 0x0001 does send. *)
Example cmd_notify_sends :
  cmd_notify sample_heap false true sample_server (Some "-i 0x0001 01 02"%string)
  = [SendIndication 2 1 [1; 2] 2].
Proof. reflexivity. Qed.

(** A handle that is a multiple of 0x10000 is cut to 0 and refused too. *)
Example cmd_notify_wraps :
  cmd_notify sample_heap false true sample_server (Some "0x10000 01"%string)
  = [Printf ("Invalid handle: 0x10000" ++ LF)%string].
Proof. reflexivity. Qed.

(** ** src/gatt-client.c *)


(** *** The error replies *)

Lemma hex_digit_hex_char d : 0 <= d < 16 -> hex_digit (hex_char d) = Some d.
Proof.
  intros Hd.
  assert (d = 0 \/ d = 1 \/ d = 2 \/ d = 3 \/ d = 4 \/ d = 5 \/ d = 6 \/ d = 7
          \/ d = 8 \/ d = 9 \/ d = 10 \/ d = 11 \/ d = 12 \/ d = 13
          \/ d = 14 \/ d = 15) as Hcases by lia.
  repeat (destruct Hcases as [->|Hcases]; [reflexivity|]).
  subst d. reflexivity.
Qed.

(** The two digits of [%02x] give the byte back. *)
Lemma fmt_02x_inj e1 e2 :
  0 <= e1 < 256 -> 0 <= e2 < 256 -> fmt_02x e1 = fmt_02x e2 -> e1 = e2.
Proof.
  intros H1 H2. unfold fmt_02x. intros [= Hhi Hlo].
  apply (f_equal hex_digit) in Hhi, Hlo.
  rewrite !hex_digit_hex_char in Hhi, Hlo
    by (try apply Z.mod_pos_bound; try split;
        try apply Z.div_pos; try apply Z.div_lt_upper_bound; lia).
  injection Hhi as Hhi. injection Hlo as Hlo.
  rewrite (Z.div_mod e1 16), (Z.div_mod e2 16) by lia. congruence.
Qed.

Section ClientProperties.
Context `{headers}.

Lemma key_size_label :
  NoDup switch_labels ->
  let k := BT_ATT_ERROR_INSUFFICIENT_ENCRYPTION_KEY_SIZE in
  k <> 0x02 /\ k <> 0x03 /\ k <> 0x05 /\ k <> 0x0F /\ k <> 0x07 /\ k <> 0x0D
  /\ k <> 0x08 /\ k <> 0x06 /\ k <> 0.
Proof.
  unfold switch_labels. intros Hnd.
  repeat (apply NoDup_cons in Hnd as [? Hnd]).
  repeat match goal with
         | Hin : _ ∉ _ :: _ |- _ => apply not_elem_of_cons in Hin as [? Hin]
         end.
  unfold BT_ATT_ERROR_READ_NOT_PERMITTED, BT_ATT_ERROR_WRITE_NOT_PERMITTED,
    BT_ATT_ERROR_AUTHENTICATION, BT_ATT_ERROR_INSUFFICIENT_ENCRYPTION,
    BT_ATT_ERROR_INVALID_OFFSET, BT_ATT_ERROR_INVALID_ATTRIBUTE_VALUE_LEN,
    BT_ATT_ERROR_AUTHORIZATION, BT_ATT_ERROR_REQUEST_NOT_SUPPORTED in *.
  simpl. repeat split; congruence.
Qed.

(** C6: the translation of an ATT error code into a D-Bus error is total
    and follows a fixed table.  For every 8-bit code the function returns a
    reply (never [NULL]) and that reply is an error; READ_NOT_PERMITTED
    gives .ReadNotPermitted, WRITE_NOT_PERMITTED .WriteNotPermitted, each
    of AUTHENTICATION, INSUFFICIENT_ENCRYPTION and
    INSUFFICIENT_ENCRYPTION_KEY_SIZE .NotPaired, INVALID_OFFSET
    .InvalidOffset, INVALID_ATTRIBUTE_VALUE_LEN .InvalidValueLength,
    AUTHORIZATION the not-authorized error, REQUEST_NOT_SUPPORTED the
    not-supported error, 0 the generic failure, and every other code the
    generic error whose text carries the code in hexadecimal, from which
    the code can be read back. *)
Theorem create_gatt_dbus_error_table (msg : nat) :
  NoDup switch_labels ->
  (forall e, 0 <= e < 256 ->
     exists m, create_gatt_dbus_error msg e = Some m /\ is_error m = true) /\
  create_gatt_dbus_error msg BT_ATT_ERROR_READ_NOT_PERMITTED
    = Some (g_dbus_create_error msg (ERROR_INTERFACE ++ ".ReadNotPermitted")
              "Reading of this value is not allowed") /\
  create_gatt_dbus_error msg BT_ATT_ERROR_WRITE_NOT_PERMITTED
    = Some (g_dbus_create_error msg (ERROR_INTERFACE ++ ".WriteNotPermitted")
              "Writing of this value is not allowed") /\
  (forall e,
     e = BT_ATT_ERROR_AUTHENTICATION
     \/ e = BT_ATT_ERROR_INSUFFICIENT_ENCRYPTION
     \/ e = BT_ATT_ERROR_INSUFFICIENT_ENCRYPTION_KEY_SIZE ->
     create_gatt_dbus_error msg e
     = Some (g_dbus_create_error msg (ERROR_INTERFACE ++ ".NotPaired")
               "Not Paired")) /\
  create_gatt_dbus_error msg BT_ATT_ERROR_INVALID_OFFSET
    = Some (g_dbus_create_error msg (ERROR_INTERFACE ++ ".InvalidOffset")
              "Invalid value offset") /\
  create_gatt_dbus_error msg BT_ATT_ERROR_INVALID_ATTRIBUTE_VALUE_LEN
    = Some (g_dbus_create_error msg (ERROR_INTERFACE ++ ".InvalidValueLength")
              "Invalid value length") /\
  create_gatt_dbus_error msg BT_ATT_ERROR_AUTHORIZATION
    = Some (btd_error_not_authorized msg) /\
  create_gatt_dbus_error msg BT_ATT_ERROR_REQUEST_NOT_SUPPORTED
    = Some (btd_error_not_supported msg) /\
  create_gatt_dbus_error msg 0
    = Some (btd_error_failed msg "Operation failed") /\
  (forall e, e ∉ switch_labels ->
     create_gatt_dbus_error msg e
     = Some (g_dbus_create_error msg ERROR_INTERFACE
               ("Operation failed with ATT error: 0x" ++ fmt_02x e))) /\
  (forall e1 e2, 0 <= e1 < 256 -> 0 <= e2 < 256 ->
     fmt_02x e1 = fmt_02x e2 -> e1 = e2).
Proof.
  intros Hnd.
  destruct (key_size_label Hnd)
    as (K2 & K3 & K5 & KF & K7 & KD & K8 & K6 & K0).
  unfold create_gatt_dbus_error, gatt_error_read_not_permitted,
    gatt_error_write_not_permitted, gatt_error_not_paired,
    gatt_error_invalid_offset, gatt_error_invalid_value_len,
    BT_ATT_ERROR_READ_NOT_PERMITTED, BT_ATT_ERROR_WRITE_NOT_PERMITTED,
    BT_ATT_ERROR_AUTHENTICATION, BT_ATT_ERROR_INSUFFICIENT_ENCRYPTION,
    BT_ATT_ERROR_INVALID_OFFSET, BT_ATT_ERROR_INVALID_ATTRIBUTE_VALUE_LEN,
    BT_ATT_ERROR_AUTHORIZATION, BT_ATT_ERROR_REQUEST_NOT_SUPPORTED.
  split; [|split; [|split; [|split; [|split; [|split; [|split;
          [|split; [|split; [|split]]]]]]]]].
  - intros e _. eqb_cases; eexists; (split; [reflexivity|reflexivity]).
  - reflexivity.
  - reflexivity.
  - intros e [-> | [-> | ->]]; eqb_cases; reflexivity.
  - eqb_cases; reflexivity.
  - eqb_cases; reflexivity.
  - eqb_cases; reflexivity.
  - eqb_cases; reflexivity.
  - eqb_cases; reflexivity.
  - intros e He. unfold switch_labels in He.
    repeat (apply not_elem_of_cons in He as [? He]).
    unfold BT_ATT_ERROR_READ_NOT_PERMITTED, BT_ATT_ERROR_WRITE_NOT_PERMITTED,
      BT_ATT_ERROR_AUTHENTICATION, BT_ATT_ERROR_INSUFFICIENT_ENCRYPTION,
      BT_ATT_ERROR_INVALID_OFFSET, BT_ATT_ERROR_INVALID_ATTRIBUTE_VALUE_LEN,
      BT_ATT_ERROR_AUTHORIZATION, BT_ATT_ERROR_REQUEST_NOT_SUPPORTED in *.
    eqb_cases; try congruence; reflexivity.
  - apply fmt_02x_inj.
Qed.

(** *** The cached value *)

Lemma memcpy_whole (dst src : list Z) (n : Z) :
  n = Z.of_nat (length src) -> length dst = length src ->
  memcpy dst 0 src n = src.
Proof.
  intros Hn Hlen. rewrite memcpy_inside by lia.
  rewrite drop_ge by lia. simpl. by rewrite app_nil_r.
Qed.

Lemma memcmp_eq_whole (a b : list Z) (n : Z) :
  n = Z.of_nat (length a) -> n = Z.of_nat (length b) ->
  memcmp_eq a b n = true -> a = b.
Proof.
  intros Ha Hb. unfold memcmp_eq. intros Heq.
  apply bool_decide_eq_true in Heq.
  by rewrite !take_ge in Heq by lia.
Qed.

(** [chrc_resize_value] calls nothing outside; it either leaves a block of
    the new size and touches nothing else, or fails, which it does only
    when a reallocation to a new, nonzero size is refused, and then the
    characteristic is as before. *)
Lemma chrc_resize_value_spec (h : heap) (n : Z) (c : characteristic) :
  let r := chrc_resize_value h n c in
  trace r = [] /\
  ((result r = true /\
    exists blk,
      (n = value_len c -> blk = value c) /\
      (n <> value_len c -> Z.of_nat (length blk) = Z.max 0 n) /\
      final r = with_value_len n (with_value blk c))
   \/ (result r = false /\ final r = c /\ n <> value_len c /\ n <> 0
       /\ realloc h (value c) n = None)).
Proof.
  unfold chrc_resize_value. cbv [bind ret get put trace result final].
  destruct (value_len c =? n) eqn:Hsame.
  - apply Z.eqb_eq in Hsame. split; [done|]. left. split; [done|].
    exists (value c). split; [done|]. split; [lia|].
    subst n. by destruct c.
  - apply Z.eqb_neq in Hsame.
    destruct (n =? 0) eqn:Hzero.
    + apply Z.eqb_eq in Hzero. subst n. split; [done|]. left.
      split; [done|]. exists []. done.
    + apply Z.eqb_neq in Hzero.
      destruct (realloc h (value c) n) as [blk|] eqn:Hblk.
      * split; [done|]. left. split; [done|]. exists blk.
        split; [lia|]. split; [|done].
        rewrite (realloc_length _ _ _ _ Hblk). lia.
      * split; [done|]. right. repeat split; done || lia.
Qed.

(** A reallocation to another length that is not 0 fails: so does
    [chrc_resize_value]. *)
Lemma chrc_resize_value_refused (h : heap) (n : Z) (c : characteristic) :
  n <> value_len c -> n <> 0 -> realloc h (value c) n = None ->
  chrc_resize_value h n c = (false, c, []).
Proof.
  intros Hne Hnz Hfail. unfold chrc_resize_value. cbv [bind ret get put].
  rewrite (proj2 (Z.eqb_neq (value_len c) n)) by lia.
  by rewrite (proj2 (Z.eqb_neq _ _) Hnz), Hfail.
Qed.

(** C10, amended: the cached characteristic value is never stale.  After
    the read-long completion callback has run with success, either
    [value_known] is true and the cache holds exactly the bytes, and has
    exactly the length, just read, or [value_known] is false and the cache
    is empty, which happens exactly when the cache has to be resized to
    another length that is not 0, larger or smaller than the old one, and
    the reallocation fails.  The D-Bus Value property exists exactly when
    [value_known] is true, and then reports the cached bytes. *)
Theorem chrc_read_long_cb_cache (h : heap) (reply_ok : bool)
    (op : chrc_dbus_op) (att_ecode : Z) (value_read : list Z) (len : Z)
    (chrc : characteristic) :
  chrc_wf chrc -> len = Z.of_nat (length value_read) -> len <= UINT16_MAX ->
  let chrc' :=
    final (chrc_read_long_cb h reply_ok op true att_ecode value_read len
                             chrc) in
  ((value_known chrc' = true /\ value chrc' = value_read
    /\ value_len chrc' = len)
   \/ (value_known chrc' = false /\ value chrc' = [] /\ value_len chrc' = 0
       /\ len <> value_len chrc /\ len <> 0
       /\ realloc h (value chrc) len = None)) /\
  chrc_wf chrc' /\
  (characteristic_property_value_exists chrc' = true
   <-> value_known chrc' = true) /\
  (value_known chrc' = true ->
   characteristic_property_get_value chrc' = value chrc'
   /\ characteristic_property_get_value chrc' = value_read) /\
  (value_known chrc' = false ->
   characteristic_property_value_exists chrc' = false) /\
  (value_known chrc' = false <->
   len <> value_len chrc /\ len <> 0 /\ realloc h (value chrc) len = None).
Proof.
  intros Hwf Hlen Hmax chrc'.
  assert (len <> value_len chrc -> len <> 0 ->
          realloc h (value chrc) len = None ->
          value_known chrc' = false) as Hdropped.
  { intros Hne Hnz Hfail. subst chrc'. unfold chrc_read_long_cb.
    cbv [bind ret get put modify emit final negb].
    set (c0 := with_in_read false chrc).
    assert ((value_len c0 =? len) = false) as Hsize
      by (apply Z.eqb_neq; subst c0; simpl; lia).
    rewrite Hsize, andb_false_r. simpl.
    rewrite (chrc_resize_value_refused h len c0) by (subst c0; simpl; lia || done).
    by destruct reply_ok. }
  assert ((value_known chrc' = true /\ value chrc' = value_read
           /\ value_len chrc' = len)
          \/ (value_known chrc' = false /\ value chrc' = []
              /\ value_len chrc' = 0
              /\ len <> value_len chrc /\ len <> 0
              /\ realloc h (value chrc) len = None)) as Hcache.
  { subst chrc'. unfold chrc_wf in Hwf. unfold chrc_read_long_cb.
    cbv [bind ret get put modify emit final negb].
    set (c0 := with_in_read false chrc).
    destruct (value_known c0 && (value_len c0 =? len)
              && memcmp_eq (value c0) value_read len) eqn:Hsame.
    - apply andb_true_iff in Hsame as [Hsame Hcmp].
      apply andb_true_iff in Hsame as [Hknown Hsame].
      apply Z.eqb_eq in Hsame. subst c0. simpl in *.
      left. destruct reply_ok; simpl;
        (split; [done|]; split; [|done];
         apply (memcmp_eq_whole _ _ len); [lia|done|done]).
    - clear Hsame.
      destruct (chrc_resize_value_spec h len c0) as [Htr Hres].
      destruct (chrc_resize_value h len c0) as [[resized c1] t1].
      cbv [trace result final fst snd] in Htr, Hres. subst t1.
      destruct Hres as [(-> & blk & Hsame & Hnew & ->)
                       |(-> & -> & Hne & Hnz & Hfail)].
      + left.
        assert (length blk = length value_read) as Hblk.
        { destruct (decide (len = value_len c0)) as [Heq|Heq].
          - rewrite (Hsame Heq). subst c0. simpl in *. lia.
          - specialize (Hnew Heq). lia. }
        destruct reply_ok; simpl;
          (split; [done|]; split; [|done];
           apply memcpy_whole; [done|done]).
      + right. subst c0. simpl in *.
        destruct reply_ok; simpl; repeat split; done. }
  assert (chrc_wf chrc') as Hwf'.
  { unfold chrc_wf.
    destruct Hcache as [(_ & -> & ->)|(_ & -> & -> & _)]; [done|done]. }
  split; [done|]. split; [done|].
  unfold characteristic_property_value_exists,
    characteristic_property_get_value.
  split; [destruct (value_known chrc'); done|].
  split; [|split].
  - intros Hk. rewrite Hk.
    destruct Hcache as [(_ & Hv & Hl)|(Hk' & _)]; [|congruence].
    rewrite Hl, Hv, take_ge by lia. done.
  - intros ->. done.
  - split.
    + intros Hk.
      destruct Hcache as [(Hk' & _)|(_ & _ & _ & Hne & Hnz & Hfail)];
        [congruence|done].
    + intros (Hne & Hnz & Hfail). by apply Hdropped.
Qed.

(** *** One read at a time *)

(** The completion callback clears [in_read] first: the flag is down in the
    state it leaves and in every state in which it calls out. *)
Lemma chrc_read_long_cb_in_read (h : heap) (reply_ok : bool)
    (op : chrc_dbus_op) (success : bool) (att_ecode : Z)
    (value_read : list Z) (len : Z) (chrc : characteristic) :
  let r := chrc_read_long_cb h reply_ok op success att_ecode value_read len
                             chrc in
  in_read (final r) = false /\
  forall c e, (c, e) ∈ trace r -> in_read c = false.
Proof.
  unfold chrc_read_long_cb.
  cbv [bind ret get put modify emit final trace negb].
  set (c0 := with_in_read false chrc).
  assert (in_read c0 = false) as H0 by done.
  assert (forall (c : characteristic) e (l : list (characteristic * event)),
            Forall (fun p => in_read p.1 = false) l -> (c, e) ∈ l ->
            in_read c = false) as Hall.
  { intros c e l Hl Hin. rewrite Forall_forall in Hl. apply (Hl _ Hin). }
  destruct success.
  2:{ split; [done|]. intros c e. apply Hall. repeat constructor. }
  destruct (value_known c0 && (value_len c0 =? len)
            && memcmp_eq (value c0) value_read len).
  { destruct reply_ok; simpl; (split; [done|]); intros c e; apply Hall;
      repeat constructor. }
  destruct (chrc_resize_value_spec h len c0) as [Htr Hres].
  destruct (chrc_resize_value h len c0) as [[resized c1] t1].
  cbv [trace result final fst snd] in Htr, Hres. subst t1.
  destruct Hres as [(-> & blk & _ & _ & ->)|(-> & -> & _)];
    destruct reply_ok; simpl; (split; [done|]); intros c e; apply Hall;
    repeat constructor.
Qed.

(** What a [ReadValue] call does when no read is under way. *)
Lemma characteristic_read_value_idle (h : heap) (started : bool)
    (g : option bt_gatt_client) (msg : nat) (chrc : characteristic) :
  in_read chrc = false ->
  let r := characteristic_read_value h started g msg chrc in
  let call :=
    ReadLongValue (gatt_id <$> g) (value_handle chrc) 0 {| op_msg := msg |} in
  (alloc_ok h = true /\ started = true /\
   r = (None, with_in_read true chrc, [(chrc, call true)]))
  \/ (alloc_ok h = true /\ started = false /\
      r = (Some (btd_error_failed msg "Failed to send read request"), chrc,
           [(chrc, call false)]))
  \/ (alloc_ok h = false /\
      r = (Some (btd_error_failed msg "Failed to initialize request"), chrc,
           [])).
Proof.
  intros Hidle. unfold characteristic_read_value.
  cbv [bind ret get put modify emit]. rewrite Hidle.
  destruct (alloc_ok h); simpl; [|by right; right].
  destruct started; simpl; [by left|by right; left].
Qed.

Lemma characteristic_read_value_busy (h : heap) (started : bool)
    (g : option bt_gatt_client) (msg : nat) (chrc : characteristic) :
  in_read chrc = true ->
  characteristic_read_value h started g msg chrc
  = (Some (btd_error_in_progress msg), chrc, []).
Proof.
  intros Hbusy. unfold characteristic_read_value.
  cbv [bind ret get]. by rewrite Hbusy.
Qed.

Lemma read_step_inv st st' : read_inv st -> read_step st st' -> read_inv st'.
Proof.
  intros Hinv Hstep. destruct Hstep as
    [h started g msg st
    |h reply_ok success att_ecode value_read len st before op after Hout].
  - destruct Hinv as [[Hbusy Hone]|[Hidle Hnone]].
    + rewrite (characteristic_read_value_busy _ _ _ _ _ Hbusy).
      left. cbv [final events started_ops]. simpl.
      rewrite app_nil_r. done.
    + destruct (characteristic_read_value_idle h started g msg _ Hidle)
        as [(_ & _ & ->)|[(_ & _ & ->)|(_ & ->)]];
        cbv [final events]; simpl; rewrite Hnone.
      * left. done.
      * right. done.
      * right. done.
  - right. simpl.
    split; [apply chrc_read_long_cb_in_read|].
    destruct Hinv as [[_ Hone]|[_ Hnone]].
    + rewrite Hout, length_app in Hone. simpl in Hone.
      destruct before, after; simpl in *; done || lia.
    + rewrite Hnone in Hout. by destruct before.
Qed.

Lemma read_reachable_inv st : read_reachable st -> read_inv st.
Proof.
  intros (st0 & [Hidle Hnone] & Hsteps).
  assert (read_inv st0) as Hinv by (by right).
  clear Hidle Hnone.
  induction Hsteps as [st|st1 st2 st3 Hstep _ IH]; [done|].
  apply IH. by apply (read_step_inv st1).
Qed.

(** C5: at most one read-long request is outstanding for an exported
    characteristic at any time.  A [ReadValue] call on a characteristic
    whose [in_read] flag is set is answered at once with the in-progress
    error, without a call to [bt_gatt_client_read_long_value] and without
    a change to the characteristic; [in_read] is set by a [ReadValue] call
    exactly when [bt_gatt_client_read_long_value] was called and reported
    that the request started; and the completion callback clears [in_read]
    before it sends any reply. *)
Theorem read_long_one_at_a_time :
  (forall st, read_reachable st ->
     (length (rs_outstanding st) <= 1)%nat /\
     (rs_outstanding st <> [] -> in_read (rs_chrc st) = true)) /\
  (forall h started g msg chrc,
     in_read chrc = true ->
     characteristic_read_value h started g msg chrc
     = (Some (btd_error_in_progress msg), chrc, [])) /\
  (forall h started g msg chrc,
     in_read chrc = false ->
     let r := characteristic_read_value h started g msg chrc in
     (in_read (final r) = true <->
      events r = [ReadLongValue (gatt_id <$> g) (value_handle chrc) 0
                                {| op_msg := msg |} true]) /\
     (in_read (final r) = true <-> result r = None) /\
     (in_read (final r) = true <-> started_ops (events r) <> [])) /\
  (forall h reply_ok op success att_ecode value_read len chrc,
     let r := chrc_read_long_cb h reply_ok op success att_ecode value_read
                                len chrc in
     in_read (final r) = false /\
     forall c reply, (c, SendMessage reply) ∈ trace r -> in_read c = false).
Proof.
  split; [|split; [|split]].
  - intros st Hreach.
    destruct (read_reachable_inv st Hreach) as [[Hbusy Hone]|[Hidle Hnone]].
    + split; [lia|done].
    + rewrite Hnone. split; [simpl; lia|done].
  - intros. by apply characteristic_read_value_busy.
  - intros h started g msg chrc Hidle.
    destruct (characteristic_read_value_idle h started g msg chrc Hidle)
      as [(_ & _ & ->)|[(_ & _ & ->)|(_ & ->)]];
      cbv [final events result started_ops]; simpl; rewrite ?Hidle;
      repeat split; intros; done.
  - intros h reply_ok op success att_ecode value_read len chrc.
    destruct (chrc_read_long_cb_in_read h reply_ok op success att_ecode
                value_read len chrc) as [Hfinal Htrace].
    split; [done|]. intros c reply. apply Htrace.
Qed.

End ClientProperties.

(** *** Sequencing *)

Lemma final_bind {St Ev A B} (m : M St Ev A) (k : A -> M St Ev B) (s : St) :
  final (bind m k s) = final (k (result (m s)) (final (m s))).
Proof.
  cbv [bind final result]. destruct (m s) as [[a s1] t1]. simpl.
  by destruct (k a s1) as [[b s2] t2].
Qed.

Lemma result_bind {St Ev A B} (m : M St Ev A) (k : A -> M St Ev B) (s : St) :
  result (bind m k s) = result (k (result (m s)) (final (m s))).
Proof.
  cbv [bind final result]. destruct (m s) as [[a s1] t1]. simpl.
  by destruct (k a s1) as [[b s2] t2].
Qed.

Lemma events_bind {St Ev A B} (m : M St Ev A) (k : A -> M St Ev B) (s : St) :
  events (bind m k s)
  = events (m s) ++ events (k (result (m s)) (final (m s))).
Proof.
  cbv [bind final result events]. destruct (m s) as [[a s1] t1]. simpl.
  destruct (k a s1) as [[b s2] t2]. simpl. apply map_app.
Qed.

Lemma run_get {St Ev} (s : St) :
  result (@get St Ev s) = s /\ final (@get St Ev s) = s
  /\ events (@get St Ev s) = [].
Proof. done. Qed.

Lemma run_put {St Ev} (s' s : St) :
  final (@put St Ev s' s) = s' /\ events (@put St Ev s' s) = [].
Proof. done. Qed.

Lemma run_ret {St Ev A} (a : A) (s : St) :
  result (@ret St Ev A a s) = a /\ final (@ret St Ev A a s) = s
  /\ events (@ret St Ev A a s) = [].
Proof. done. Qed.

Lemma run_modify {St Ev} (f : St -> St) (s : St) :
  final (@modify St Ev f s) = f s /\ events (@modify St Ev f s) = [].
Proof. done. Qed.

Lemma run_emit {St Ev} (e : Ev) (s : St) :
  final (emit e s) = s /\ events (emit e s) = [e].
Proof. done. Qed.

(** *** Taking the objects off the bus *)

Lemma removes_unregister path iface :
  removes (g_dbus_unregister_interface path iface) [(path, iface)].
Proof.
  intros w. unfold g_dbus_unregister_interface.
  cbv [bind modify emit final events]. simpl. split.
  - unfold with_bus. simpl. f_equal. set_solver.
  - by repeat constructor.
Qed.

Lemma removes_seq m1 m2 objs1 objs2 :
  removes m1 objs1 -> removes m2 objs2 ->
  removes (bind m1 (fun _ => m2)) (objs1 ++ objs2).
Proof.
  intros H1 H2 w. rewrite final_bind, events_bind.
  destruct (H1 w) as [-> Hev1].
  destruct (H2 (with_bus (bus w ∖ list_to_set objs1) w)) as [-> Hev2].
  split.
  - unfold with_bus. simpl. f_equal. rewrite list_to_set_app_L. set_solver.
  - by apply Forall_app.
Qed.

Lemma removes_foreach {A} (f : A -> M world event unit)
    (objs : A -> list (string * string)) (l : list A) :
  (forall x, removes (f x) (objs x)) ->
  removes (foreach f l) (concat (map objs l)).
Proof.
  intros Hf. induction l as [|x l IH]; simpl.
  - intros w. cbv [ret final events]. simpl. split; [|done].
    destruct w. unfold with_bus. simpl. f_equal. set_solver.
  - by apply removes_seq.
Qed.

Lemma removes_perm m objs1 objs2 :
  objs1 ≡ₚ objs2 -> removes m objs1 -> removes m objs2.
Proof.
  intros Hperm Hm w. destruct (Hm w) as [-> Hev]. split; [|done].
  unfold with_bus. f_equal.
  assert (list_to_set objs1 =@{gset (string * string)} list_to_set objs2)
    as -> by (apply list_to_set_perm_L; done).
  done.
Qed.

Lemma removes_unregister_characteristic chrc :
  removes (unregister_characteristic chrc) (chrc_objects chrc).
Proof.
  unfold unregister_characteristic, chrc_objects.
  eapply removes_perm; [|apply removes_seq;
    [apply (removes_foreach _
              (fun d => [(desc_path d, GATT_DESCRIPTOR_IFACE)]))
    |apply removes_unregister]].
  - rewrite <- Permutation_cons_append. f_equiv.
    induction (descs chrc) as [|d ds IH]; simpl; [done|]. by f_equiv.
  - intros d. apply removes_unregister.
Qed.

Lemma removes_unregister_service service :
  removes (unregister_service service) (service_objects service).
Proof.
  unfold unregister_service, service_objects.
  eapply removes_perm; [|apply removes_seq;
    [apply (removes_foreach _ chrc_objects)|apply removes_unregister]].
  - by rewrite <- Permutation_cons_append.
  - apply removes_unregister_characteristic.
Qed.

(** What [gatt_disconn_cb] leaves. *)
Lemma gatt_disconn_cb_final w :
  final (gatt_disconn_cb w)
  = with_client (with_gatt None (with_services [] (client w)))
      (with_bus
         (bus w ∖ list_to_set (concat (map service_objects
                                         (services (client w))))) w) /\
  exists pre,
    Forall is_unregistered pre /\
    events (gatt_disconn_cb w)
    = pre ++ [ClientUnref (gatt_id <$> gatt (client w))].
Proof.
  unfold gatt_disconn_cb.
  destruct (removes_foreach unregister_service service_objects
              (services (client w)) removes_unregister_service
              (with_client (with_services [] (client w)) w)) as [Hfin Hev].
  cbv [bind get modify emit final events] in *. simpl in *.
  destruct (foreach unregister_service (services (client w))
              (with_client (with_services [] (client w)) w))
    as [[[] w1] t1].
  simpl in *. subst w1. split; [done|].
  exists (map snd t1). split; [done|].
  by rewrite map_app.
Qed.

(** *** Putting the objects on the bus *)

Lemma yields_ret {A} (a : A) (P : A -> Prop) : P a -> yields (ret a) P.
Proof. intros Ha w. cbv [ret result final events]. simpl. by repeat split. Qed.

Lemma yields_bind {A B} (m : M world event A) (k : A -> M world event B)
    (P : A -> Prop) (Q : B -> Prop) :
  yields m P -> (forall a, P a -> yields (k a) Q) -> yields (bind m k) Q.
Proof.
  intros Hm Hk w. rewrite result_bind, final_bind, events_bind.
  destruct (Hm w) as (Ha & Hc & Hi & Hr & He).
  destruct (Hk _ Ha (final (m w))) as (Hb & Hc' & Hi' & Hr' & He').
  split; [done|]. split; [congruence|]. split; [congruence|].
  split; [congruence|]. by apply Forall_app.
Qed.

Lemma yields_weaken {A} (m : M world event A) (P Q : A -> Prop) :
  yields m P -> (forall a, P a -> Q a) -> yields m Q.
Proof.
  intros Hm HPQ w. destruct (Hm w) as (Ha & Hrest). split; [auto|done].
Qed.

Lemma yields_new0 : yields new0 (fun _ => True).
Proof.
  intros w. unfold new0. cbv [bind get put ret result final events].
  destruct (allocs w); simpl; by repeat split.
Qed.

Lemma yields_register path iface :
  yields (g_dbus_register_interface path iface) (fun _ => True).
Proof.
  intros w. unfold g_dbus_register_interface.
  cbv [bind get put emit ret result final events].
  destruct (reg_ok w path iface); simpl; repeat split; by repeat constructor.
Qed.

Lemma yields_removes m objs : removes m objs -> yields m (fun _ => True).
Proof.
  intros Hm w. destruct (Hm w) as [Hfin Hev]. rewrite Hfin.
  repeat split; try done.
  eapply Forall_impl; [exact Hev|]. by intros [].
Qed.

Lemma yields_descriptor_create desc_data chrc :
  yields (descriptor_create desc_data chrc)
    (fun r => forall desc, r = Some desc ->
                desc = mirror_descriptor (chrc_path chrc) desc_data).
Proof.
  unfold descriptor_create.
  eapply yields_bind; [apply yields_new0|]. intros allocated _.
  destruct allocated; simpl; [|by apply yields_ret].
  eapply yields_bind; [apply yields_register|]. intros registered _.
  destruct registered; simpl; apply yields_ret; [|done].
  by intros desc [= <-].
Qed.

Lemma yields_create_descriptors descs_data chrc :
  yields (create_descriptors descs_data chrc)
    (fun r => r.1 = true ->
              r.2 = with_descs
                      (descs chrc
                         ++ map (mirror_descriptor (chrc_path chrc))
                                descs_data) chrc).
Proof.
  revert chrc. induction descs_data as [|d ds IH]; intros chrc; simpl.
  - apply yields_ret. intros _. simpl. rewrite app_nil_r. by destruct chrc.
  - eapply yields_bind; [apply yields_descriptor_create|].
    intros [desc|] Hdesc; [|by apply yields_ret].
    rewrite (Hdesc _ eq_refl).
    eapply yields_weaken; [apply IH|]. intros r Hr Hok.
    rewrite (Hr Hok). unfold with_descs. simpl. by rewrite <- app_assoc.
Qed.

Lemma yields_characteristic_create chrc_data service :
  yields (characteristic_create chrc_data service)
    (fun r => forall chrc, r = Some chrc ->
                chrc = with_descs []
                         (mirror_characteristic (svc_path service) chrc_data)).
Proof.
  unfold characteristic_create.
  eapply yields_bind; [apply yields_new0|]. intros allocated _.
  destruct allocated; simpl; [|by apply yields_ret].
  eapply yields_bind; [apply yields_new0|]. intros queue _.
  destruct queue; simpl; [|by apply yields_ret].
  eapply yields_bind; [apply yields_register|]. intros registered _.
  destruct registered; simpl; apply yields_ret; [|done].
  by intros chrc [= <-].
Qed.

Lemma yields_create_characteristics_loop chrcs_data service :
  yields (create_characteristics_loop chrcs_data service)
    (fun r => r.1 = true ->
              r.2 = with_chrcs
                      (chrcs service
                         ++ map (mirror_characteristic (svc_path service))
                                chrcs_data) service).
Proof.
  revert service. induction chrcs_data as [|c cs IH]; intros service; simpl.
  - apply yields_ret. intros _. simpl. rewrite app_nil_r. by destruct service.
  - eapply yields_bind; [apply yields_characteristic_create|].
    intros [chrc|] Hchrc; [|by apply yields_ret].
    rewrite (Hchrc _ eq_refl).
    eapply yields_bind; [apply yields_create_descriptors|].
    intros [ok chrc'] Hdescs. simpl in Hdescs.
    destruct ok; simpl.
    + rewrite (Hdescs eq_refl).
      eapply yields_weaken; [apply IH|]. intros r Hr Hok.
      rewrite (Hr Hok). unfold with_chrcs. simpl. by rewrite <- app_assoc.
    + eapply yields_bind;
        [apply (yields_removes _ _
                  (removes_unregister_characteristic chrc'))|].
      intros _ _. by apply yields_ret.
Qed.

Lemma yields_create_characteristics svc_data service :
  yields (create_characteristics svc_data service)
    (fun r => r.1 = true ->
              r.2 = with_chrcs
                      (chrcs service
                         ++ map (mirror_characteristic (svc_path service))
                                (sd_chrcs svc_data)) service).
Proof.
  unfold create_characteristics.
  destruct (sd_iter_ok svc_data); simpl;
    [apply yields_create_characteristics_loop|by apply yields_ret].
Qed.

Lemma yields_service_create svc_data c :
  yields (service_create svc_data c)
    (fun r => forall service, r = Some service ->
                service = with_chrcs []
                            (mirror_service (device_path (device c))
                                            svc_data)).
Proof.
  unfold service_create.
  eapply yields_bind; [apply yields_new0|]. intros allocated _.
  destruct allocated; simpl; [|by apply yields_ret].
  eapply yields_bind; [apply yields_new0|]. intros queue _.
  destruct queue; simpl; [|by apply yields_ret].
  eapply yields_bind; [apply yields_register|]. intros registered _.
  destruct registered; simpl; apply yields_ret; [|done].
  by intros service [= <-].
Qed.

(** The loop of [create_services] appends to the client's queue, in the
    order of the remote database, the full mirror of every service whose
    export went through, and nothing else. *)
Lemma create_services_loop_spec svcs_data w :
  let r := create_services_loop svcs_data w in
  exists created,
    client (final r)
    = with_services (services (client w) ++ created) (client w) /\
    created `sublist_of`
      map (mirror_service (device_path (device (client w)))) svcs_data /\
    idle (final r) = idle w /\
    reg_ok (final r) = reg_ok w /\
    Forall is_bus_event (events r).
Proof.
  revert w. induction svcs_data as [|sd sds IH]; intros w; simpl.
  - exists []. cbv [ret final events]. simpl. rewrite app_nil_r.
    repeat split; try done. by destruct (client w).
  - rewrite final_bind, events_bind.
    destruct (run_get (Ev := event) w) as (-> & -> & ->). simpl.
    rewrite final_bind, events_bind.
    destruct (yields_service_create sd (client w) w)
      as (Hsvc & Hc1 & Hi1 & Hr1 & He1).
    set (r1 := service_create sd (client w) w) in *.
    destruct (result r1) as [svc|] eqn:Hres1.
    2:{ destruct (IH (final r1)) as (created & Hc & Hsub & Hi & Hr & He).
        rewrite Hc1 in Hsub.
        exists created. rewrite Hc, Hc1, Hi, Hr.
        split; [done|]. split; [by apply sublist_cons|].
        split; [done|]. split; [done|]. by apply Forall_app. }
    rewrite (Hsvc _ eq_refl) in *. clear Hsvc.
    set (svc0 := with_chrcs [] (mirror_service _ sd)).
    rewrite final_bind, events_bind.
    destruct (yields_create_characteristics sd svc0 (final r1))
      as (Hchr & Hc2 & Hi2 & Hr2 & He2).
    set (r2 := create_characteristics sd svc0 (final r1)) in *.
    destruct (result r2) as [ok svc'] eqn:Hres2. simpl in Hchr.
    destruct ok; simpl.
    + rewrite (Hchr eq_refl). clear Hchr.
      rewrite final_bind, events_bind.
      match goal with
      | |- context [final (modify ?f ?w2)] =>
          destruct (run_modify (Ev := event) f w2) as (-> & ->)
      end.
      simpl.
      match goal with
      | |- context [create_services_loop sds ?w3] =>
          destruct (IH w3) as (created & Hc & Hsub & Hi & Hr & He)
      end.
      simpl in Hc, Hsub, Hi, Hr.
      exists (mirror_service (device_path (device (client w))) sd :: created).
      rewrite Hc, Hi, Hr, Hc2, Hi2, Hr2, Hc1.
      split; [|split; [|split; [done|split; [done|]]]].
      * unfold with_services. simpl. f_equal. by rewrite <- app_assoc.
      * apply sublist_skip. by rewrite Hc2, Hc1 in Hsub.
      * rewrite Hc2, Hc1 in He.
        repeat (apply Forall_app; split); done.
    + rewrite final_bind, events_bind.
      destruct (yields_removes _ _ (removes_unregister_service svc')
                  (final r2)) as (_ & Hc3 & Hi3 & Hr3 & He3).
      set (r3 := unregister_service svc' (final r2)) in *.
      destruct (IH (final r3)) as (created & Hc & Hsub & Hi & Hr & He).
      rewrite Hc3, Hc2, Hc1 in Hsub.
      exists created. rewrite Hc, Hi, Hr, Hc3, Hi3, Hr3, Hc2, Hi2, Hr2, Hc1.
      split; [done|]. split; [by apply sublist_cons|].
      split; [done|]. split; [done|].
      repeat (apply Forall_app; split); done.
Qed.

(** *** When nothing fails *)

Lemma calm_with_bus b w : calm w -> calm (with_bus b w).
Proof. by intros [? ?]. Qed.

Lemma adds_ret {A} (a : A) : adds (ret a) a [].
Proof.
  intros w _. cbv [ret result final]. simpl. split; [done|].
  destruct w. unfold with_bus. simpl. f_equal. set_solver.
Qed.

Lemma adds_bind {A B} (m : M world event A) (k : A -> M world event B)
    a b objs1 objs2 objs :
  adds m a objs1 -> adds (k a) b objs2 -> objs = objs1 ++ objs2 ->
  adds (bind m k) b objs.
Proof.
  intros Hm Hk -> w Hcalm. rewrite result_bind, final_bind.
  destruct (Hm w Hcalm) as [-> ->].
  destruct (Hk _ (calm_with_bus (list_to_set objs1 ∪ bus w) w Hcalm))
    as [-> ->].
  split; [done|]. unfold with_bus. simpl. f_equal.
  rewrite list_to_set_app_L. set_solver.
Qed.

Lemma adds_new0 : adds new0 true [].
Proof.
  intros w [Hallocs _]. unfold new0. cbv [bind get ret result final].
  rewrite Hallocs. simpl. split; [done|].
  destruct w. unfold with_bus. simpl. f_equal. set_solver.
Qed.

Lemma adds_register path iface :
  adds (g_dbus_register_interface path iface) true [(path, iface)].
Proof.
  intros w [_ Hreg]. unfold g_dbus_register_interface.
  cbv [bind get put emit ret result final]. rewrite Hreg. simpl.
  split; [done|]. unfold with_bus. simpl. f_equal. set_solver.
Qed.

Lemma adds_descriptor_create desc_data chrc :
  adds (descriptor_create desc_data chrc)
       (Some (mirror_descriptor (chrc_path chrc) desc_data))
       [desc_object (mirror_descriptor (chrc_path chrc) desc_data)].
Proof.
  unfold descriptor_create.
  eapply adds_bind; [apply adds_new0| |reflexivity]. simpl.
  eapply adds_bind; [apply adds_register| |reflexivity]. simpl.
  apply adds_ret.
Qed.

Lemma adds_create_descriptors descs_data chrc :
  adds (create_descriptors descs_data chrc)
       (true,
        with_descs
          (descs chrc ++ map (mirror_descriptor (chrc_path chrc)) descs_data)
          chrc)
       (map desc_object
            (map (mirror_descriptor (chrc_path chrc)) descs_data)).
Proof.
  revert chrc. induction descs_data as [|d ds IH]; intros chrc; simpl.
  - rewrite app_nil_r. replace (with_descs (descs chrc) chrc) with chrc
      by (by destruct chrc).
    apply adds_ret.
  - eapply adds_bind; [apply adds_descriptor_create| |reflexivity]. simpl.
    specialize (IH (with_descs
                      (descs chrc ++ [mirror_descriptor (chrc_path chrc) d])
                      chrc)).
    simpl in IH. rewrite <- app_assoc in IH. exact IH.
Qed.

Lemma adds_characteristic_create chrc_data service :
  adds (characteristic_create chrc_data service)
       (Some (with_descs []
                (mirror_characteristic (svc_path service) chrc_data)))
       [(chrc_path (mirror_characteristic (svc_path service) chrc_data),
         GATT_CHARACTERISTIC_IFACE)].
Proof.
  unfold characteristic_create.
  eapply adds_bind; [apply adds_new0| |reflexivity]. simpl.
  eapply adds_bind; [apply adds_new0| |reflexivity]. simpl.
  eapply adds_bind; [apply adds_register| |reflexivity]. simpl.
  apply adds_ret.
Qed.

Lemma adds_create_characteristics_loop chrcs_data service :
  adds (create_characteristics_loop chrcs_data service)
       (true,
        with_chrcs
          (chrcs service
             ++ map (mirror_characteristic (svc_path service)) chrcs_data)
          service)
       (concat (map chrc_objects
                    (map (mirror_characteristic (svc_path service))
                         chrcs_data))).
Proof.
  revert service. induction chrcs_data as [|c cs IH]; intros service; simpl.
  - rewrite app_nil_r. replace (with_chrcs (chrcs service) service)
      with service by (by destruct service).
    apply adds_ret.
  - eapply adds_bind; [apply adds_characteristic_create| |reflexivity].
    simpl.
    eapply adds_bind; [apply adds_create_descriptors| |reflexivity]. simpl.
    specialize (IH (with_chrcs
                      (chrcs service
                         ++ [mirror_characteristic (svc_path service) c])
                      service)).
    simpl in IH. rewrite <- app_assoc in IH. exact IH.
Qed.

Lemma adds_service_create svc_data c :
  adds (service_create svc_data c)
       (Some (with_chrcs []
                (mirror_service (device_path (device c)) svc_data)))
       [(svc_path (mirror_service (device_path (device c)) svc_data),
         GATT_SERVICE_IFACE)].
Proof.
  unfold service_create.
  eapply adds_bind; [apply adds_new0| |reflexivity]. simpl.
  eapply adds_bind; [apply adds_new0| |reflexivity]. simpl.
  eapply adds_bind; [apply adds_register| |reflexivity]. simpl.
  apply adds_ret.
Qed.

(** With nothing failing the loop of [create_services] mirrors the whole
    remote database and every object it made is on the bus. *)
Lemma create_services_loop_calm svcs_data w :
  calm w -> Forall (fun sd => sd_iter_ok sd = true) svcs_data ->
  let mirror :=
    map (mirror_service (device_path (device (client w)))) svcs_data in
  final (create_services_loop svcs_data w)
  = with_client (with_services (services (client w) ++ mirror) (client w))
      (with_bus (list_to_set (concat (map service_objects mirror)) ∪ bus w)
                w).
Proof.
  revert w. induction svcs_data as [|sd sds IH]; intros w Hcalm Hiter; simpl.
  - cbv [ret final]. simpl. rewrite app_nil_r.
    destruct w as [c b i a r]. destruct c.
    unfold with_client, with_bus, with_services. simpl. f_equal. set_solver.
  - apply Forall_cons in Hiter as [Hsd Hiter].
    rewrite final_bind.
    destruct (run_get (Ev := event) w) as (-> & -> & _).
    rewrite final_bind.
    destruct (adds_service_create sd (client w) w Hcalm) as [-> ->].
    set (w1 := with_bus _ w).
    assert (calm w1) as Hcalm1 by (by apply calm_with_bus).
    set (svc0 := with_chrcs [] (mirror_service _ sd)).
    rewrite final_bind.
    assert (adds (create_characteristics sd svc0)
              (true, mirror_service (device_path (device (client w))) sd)
              (concat (map chrc_objects
                         (chrcs (mirror_service
                                   (device_path (device (client w))) sd)))))
      as Hchr.
    { unfold create_characteristics. rewrite Hsd. simpl.
      apply (adds_create_characteristics_loop (sd_chrcs sd) svc0). }
    destruct (Hchr w1 Hcalm1) as [-> ->]. simpl.
    set (w2 := with_bus _ w1).
    rewrite final_bind.
    match goal with
    | |- context [final (modify ?f ?w2)] =>
        destruct (run_modify (Ev := event) f w2) as (-> & _)
    end.
    rewrite IH; [|by repeat apply calm_with_bus|done].
    subst w2 w1. destruct w as [c b i a r]. destruct c.
    unfold with_client, with_bus, with_services. simpl. f_equal.
    + f_equal. by rewrite <- app_assoc.
    + rewrite list_to_set_app_L. set_solver.
Qed.

(** *** [create_services] and the deferred ready signal *)

Lemma create_services_spec w :
  let r := create_services w in
  let remote :=
    match gatt (client w) with
    | Some g => gatt_services g
    | None => []
    end in
  exists created pre,
    client (final r)
    = with_services (services (client w) ++ created) (client w) /\
    created `sublist_of`
      map (mirror_service (device_path (device (client w)))) remote /\
    reg_ok (final r) = reg_ok w /\
    Forall is_bus_event pre /\
    ((events r = pre ++ [IdleAdd set_chrcs_ready_cb]
      /\ idle (final r) = idle w ++ [set_chrcs_ready_cb]
      /\ exists g, gatt (client w) = Some g /\ gatt_iter_ok g = true)
     \/ (events r = [] /\ final r = w /\ created = []
         /\ forall g, gatt (client w) = Some g -> gatt_iter_ok g = false)).
Proof.
  unfold create_services. simpl.
  rewrite final_bind, events_bind.
  destruct (run_get (Ev := event) w) as (-> & -> & ->). simpl.
  destruct (gatt (client w)) as [g|] eqn:Hg.
  2:{ exists [], []. cbv [ret final events]. simpl. rewrite app_nil_r.
      split; [by destruct (client w)|]. split; [apply sublist_nil_l|].
      split; [done|]. split; [done|]. right. by repeat split. }
  destruct (gatt_iter_ok g) eqn:Hiter; simpl.
  2:{ exists [], []. cbv [ret final events]. simpl. rewrite app_nil_r.
      split; [by destruct (client w)|]. split; [apply sublist_nil_l|].
      split; [done|]. split; [done|]. right. repeat split; try done.
      by intros g' [= <-]. }
  destruct (create_services_loop_spec (gatt_services g) w)
    as (created & Hc & Hsub & Hi & Hr & He).
  exists created, (events (create_services_loop (gatt_services g) w)).
  rewrite final_bind, events_bind. unfold g_idle_add.
  rewrite final_bind, events_bind.
  match goal with
  | |- context [final (modify ?f ?w1)] =>
      destruct (run_modify (Ev := event) f w1) as (-> & ->)
  end.
  simpl.
  match goal with
  | |- context [final (emit ?e ?w1)] =>
      destruct (run_emit e w1) as (-> & ->)
  end.
  simpl. rewrite Hc, Hi, Hr.
  split; [done|]. split; [done|]. split; [done|]. split; [done|].
  left. split; [done|]. split; [done|]. by exists g.
Qed.

Lemma notify_chrcs_range (l2 l1 : list service) (w : world) :
  services (client w) = l1 ++ l2 ->
  let r := foreach notify_chrcs (seq (length l1) (length l2)) w in
  final r
  = with_client
      (with_services (l1 ++ map (with_chrcs_ready true) l2) (client w)) w /\
  events r = map chrcs_signal l2.
Proof.
  revert l1 w. induction l2 as [|s l2 IH]; intros l1 w Hsvcs; simpl.
  - cbv [ret final events]. simpl. split; [|done].
    rewrite app_nil_r in *. rewrite <- Hsvcs.
    destruct w as [c b i a r]. by destruct c.
  - rewrite final_bind, events_bind.
    assert (final (notify_chrcs (length l1) w)
            = with_client
                (with_services (l1 ++ with_chrcs_ready true s :: l2)
                               (client w)) w
            /\ events (notify_chrcs (length l1) w) = [chrcs_signal s])
      as [-> ->].
    { unfold notify_chrcs. cbv [bind modify get emit ret final events].
      simpl. rewrite Hsvcs.
      assert (alter (with_chrcs_ready true) (length l1) (l1 ++ s :: l2)
              = l1 ++ with_chrcs_ready true s :: l2) as ->.
      { rewrite <- (Nat.add_0_r (length l1)) at 1. by rewrite alter_app_r. }
      rewrite list_lookup_middle by done. done. }
    specialize (IH (l1 ++ [with_chrcs_ready true s])).
    rewrite length_app in IH. simpl in IH. rewrite Nat.add_1_r in IH.
    match goal with
    | |- context [foreach notify_chrcs _ ?w1] =>
        destruct (IH w1) as [-> ->]
    end.
    + simpl. by rewrite <- app_assoc.
    + split; [|done]. destruct w as [c b i a r]. destruct c.
      unfold with_client, with_services. simpl.
      by rewrite <- app_assoc.
Qed.

Lemma set_chrcs_ready_spec w g :
  gatt (client w) = Some g ->
  let r := set_chrcs_ready w in
  result r = false /\
  final r
  = with_client
      (with_services (map (with_chrcs_ready true) (services (client w)))
                     (client w)) w /\
  events r = map chrcs_signal (services (client w)).
Proof.
  intros Hg. unfold set_chrcs_ready.
  rewrite result_bind, final_bind, events_bind.
  destruct (run_get (Ev := event) w) as (-> & -> & ->). rewrite Hg.
  rewrite result_bind, final_bind, events_bind.
  destruct (notify_chrcs_range (services (client w)) [] w eq_refl)
    as [Hfin Hev].
  simpl in Hfin, Hev. rewrite Hfin, Hev.
  cbv [ret result final events]. simpl. by rewrite app_nil_r.
Qed.

Lemma set_chrcs_ready_no_gatt w :
  gatt (client w) = None -> set_chrcs_ready w = (false, w, []).
Proof.
  intros Hg. unfold set_chrcs_ready. cbv [bind get ret]. by rewrite Hg.
Qed.

Lemma is_bus_event_not_signal pre path iface name :
  Forall is_bus_event pre -> PropertyChanged path iface name ∉ pre.
Proof.
  intros Hpre Hin. rewrite Forall_forall in Hpre.
  apply (Hpre _ Hin).
Qed.

Lemma gatt_ready_cb_run g w :
  let w' := with_client (with_gatt (Some g) (client w)) w in
  final (gatt_ready_cb g w) = final (create_services w') /\
  events (gatt_ready_cb g w)
  = ClientRef (gatt_id g) :: events (create_services w').
Proof.
  unfold gatt_ready_cb. simpl.
  rewrite final_bind, events_bind.
  destruct (run_emit (ClientRef (gatt_id g)) w) as (-> & ->).
  rewrite final_bind, events_bind.
  match goal with
  | |- context [final (modify ?f ?w1)] =>
      destruct (run_modify (Ev := event) f w1) as (-> & ->)
  end.
  done.
Qed.

Lemma create_services_calm w g :
  calm w -> gatt (client w) = Some g -> gatt_iter_ok g = true ->
  Forall (fun sd => sd_iter_ok sd = true) (gatt_services g) ->
  let mirror :=
    map (mirror_service (device_path (device (client w)))) (gatt_services g) in
  client (final (create_services w))
  = with_services (services (client w) ++ mirror) (client w) /\
  bus (final (create_services w))
  = list_to_set (concat (map service_objects mirror)) ∪ bus w.
Proof.
  intros Hcalm Hg Hiter Hall. unfold create_services. simpl.
  rewrite final_bind.
  destruct (run_get (Ev := event) w) as (-> & -> & _). rewrite Hg, Hiter.
  simpl. rewrite final_bind. unfold g_idle_add. rewrite final_bind.
  match goal with
  | |- context [final (modify ?f ?w1)] =>
      destruct (run_modify (Ev := event) f w1) as (-> & _)
  end.
  match goal with
  | |- context [final (emit ?e ?w1)] =>
      destruct (run_emit e w1) as (-> & _)
  end.
  rewrite create_services_loop_calm by done. done.
Qed.

Lemma elem_of_concat_map {A B} (f : A -> list B) (l : list A) (x : A)
    (y : B) :
  x ∈ l -> y ∈ f x -> y ∈ concat (map f l).
Proof.
  intros Hx Hy. induction l as [|a l IH]; simpl.
  - by apply elem_of_nil in Hx.
  - apply elem_of_app. apply elem_of_cons in Hx as [<-|Hx]; [by left|].
    right. by apply IH.
Qed.

(** C7: on the bearer-disconnect callback the client's mirror is torn
    down: every exported service, with all its characteristics and
    descriptors, is unregistered from the bus, the client's queue of
    services becomes empty, and the reference to the [bt_gatt_client] is
    released and the pointer set to null.  On the next bearer-ready
    callback the service objects are built again from the new
    [bt_gatt_client]: the client holds a reference to it, its queue holds
    mirrors of services of the new instance only, in their order, and all
    of them, registered on the bus, when no export step fails. *)
Theorem gatt_disconn_then_ready (w : world) (g : bt_gatt_client) :
  let r1 := gatt_disconn_cb w in
  let w1 := final r1 in
  let r2 := gatt_ready_cb g w1 in
  let w2 := final r2 in
  let mirror :=
    map (mirror_service (device_path (device (client w)))) (gatt_services g) in
  (forall s obj,
     s ∈ services (client w) -> obj ∈ service_objects s -> obj ∉ bus w1) /\
  services (client w1) = [] /\
  gatt (client w1) = None /\
  (exists pre,
     Forall is_unregistered pre /\
     events r1 = pre ++ [ClientUnref (gatt_id <$> gatt (client w))]) /\
  gatt (client w2) = Some g /\
  (exists rest, events r2 = ClientRef (gatt_id g) :: rest) /\
  services (client w2) `sublist_of` mirror /\
  (calm w -> gatt_iter_ok g = true ->
   Forall (fun sd => sd_iter_ok sd = true) (gatt_services g) ->
   services (client w2) = mirror /\
   forall s obj, s ∈ mirror -> obj ∈ service_objects s -> obj ∈ bus w2).
Proof.
  intros r1 w1 r2 w2 mirror.
  destruct (gatt_disconn_cb_final w) as [Hw1 Hev1].
  change (final (gatt_disconn_cb w)) with w1 in Hw1.
  change (gatt_disconn_cb w) with r1 in Hev1.
  destruct (gatt_ready_cb_run g w1) as [Hw2 Hev2].
  change (final (gatt_ready_cb g w1)) with w2 in Hw2.
  change (gatt_ready_cb g w1) with r2 in Hev2.
  clearbody w1 w2 r1 r2. subst w1 w2.
  match type of Hev2 with
  | context [create_services ?w0] => set (w1' := w0) in *
  end.
  assert (services (client w1') = []) as Hnone by done.
  assert (gatt (client w1') = Some g) as Hg by done.
  assert (device (client w1') = device (client w)) as Hdev by done.
  split; [|split; [|split; [|split; [|split; [|split; [|split]]]]]].
  - intros s obj Hs Hobj. simpl.
    apply not_elem_of_difference. right.
    apply elem_of_list_to_set. by apply (elem_of_concat_map _ _ s).
  - done.
  - done.
  - exact Hev1.
  - destruct (create_services_spec w1')
      as (created & pre & Hc & _). rewrite Hc. done.
  - eexists. exact Hev2.
  - destruct (create_services_spec w1')
      as (created & pre & Hc & Hsub & _).
    rewrite Hc. simpl.
    rewrite Hg, Hdev in Hsub. exact Hsub.
  - intros Hcalm Hiter Hall.
    assert (calm w1') as Hcalm'.
    { destruct Hcalm as [Ha Hr]. by split. }
    destruct (create_services_calm w1' g Hcalm' Hg Hiter Hall) as [Hc Hb].
    rewrite Hc, Hb. simpl.
    split; [done|]. intros s obj Hs Hobj.
    apply elem_of_union. left.
    apply elem_of_list_to_set. by apply (elem_of_concat_map _ _ s).
Qed.

(** C8: a service's Characteristics property reads as the empty list
    until every service of the client has been created and all its
    characteristics and descriptors exported.  [create_services] leaves
    every service it creates with [chrcs_ready] unset, emits no
    property-changed signal, and hands [set_chrcs_ready] to the main loop
    as its last step; only that deferred callback sets [chrcs_ready] on
    each service and emits the Characteristics signal for it, and it does
    nothing at all when the client no longer holds a gatt instance. *)
Theorem chrcs_ready_is_deferred :
  (forall s, chrcs_ready s = false ->
     service_property_get_characteristics s = []) /\
  (forall w,
     let r := create_services w in
     exists created pre,
       services (client (final r)) = services (client w) ++ created /\
       Forall (fun s => chrcs_ready s = false
                        /\ service_property_get_characteristics s = [])
              created /\
       Forall is_bus_event pre /\
       (events r = pre ++ [IdleAdd set_chrcs_ready_cb]
        /\ idle (final r) = idle w ++ [set_chrcs_ready_cb]
        \/ events r = [] /\ final r = w) /\
       forall path iface name, PropertyChanged path iface name ∉ events r) /\
  (forall w, gatt (client w) = None ->
     set_chrcs_ready w = (false, w, [])) /\
  (forall w g, gatt (client w) = Some g ->
     let r := set_chrcs_ready w in
     services (client (final r))
     = map (with_chrcs_ready true) (services (client w)) /\
     Forall (fun s => chrcs_ready s = true) (services (client (final r))) /\
     events r = map chrcs_signal (services (client w)) /\
     bus (final r) = bus w) /\
  (forall w rest,
     idle w = set_chrcs_ready_cb :: rest ->
     final (dispatch_idle w) = final (set_chrcs_ready (with_idle rest w)) /\
     events (dispatch_idle w) = events (set_chrcs_ready (with_idle rest w))).
Proof.
  split; [|split; [|split; [|split]]].
  - intros s Hs. unfold service_property_get_characteristics.
    by rewrite Hs.
  - intros w r.
    destruct (create_services_spec w)
      as (created & pre & Hc & Hsub & _ & Hpre & Hev).
    fold r in Hc, Hev. exists created, pre.
    split; [by rewrite Hc|]. split; [|split; [done|split]].
    + apply Forall_forall. intros s Hs.
      apply (elem_of_sublist _ _ _ Hs) in Hsub.
      apply list_elem_of_fmap in Hsub as (sd & -> & _). done.
    + destruct Hev as [(Hev & Hidle & _)|(Hev & Hfin & _)];
        [by left|by right].
    + intros path iface name Hin.
      destruct Hev as [(Hev & _)|(Hev & _)]; rewrite Hev in Hin.
      * apply elem_of_app in Hin as [Hin|Hin].
        -- by apply (is_bus_event_not_signal pre path iface name).
        -- apply list_elem_of_singleton in Hin. done.
      * by apply elem_of_nil in Hin.
  - apply set_chrcs_ready_no_gatt.
  - intros w g Hg r.
    destruct (set_chrcs_ready_spec w g Hg) as (_ & Hfin & Hev).
    fold r in Hfin, Hev. rewrite Hfin, Hev. simpl.
    split; [done|]. split; [|done].
    apply Forall_forall. intros s Hs.
    apply list_elem_of_fmap in Hs as (s0 & -> & _). done.
  - intros w rest Hidle. unfold dispatch_idle.
    rewrite final_bind, events_bind.
    destruct (run_get (Ev := event) w) as (-> & -> & ->). rewrite Hidle.
    rewrite final_bind, events_bind.
    destruct (run_put (Ev := event) (with_idle rest w) w) as (-> & ->).
    rewrite final_bind, events_bind.
    match goal with
    | |- context [final (ret tt ?w1)] =>
        destruct (run_ret (Ev := event) tt w1) as (_ & -> & ->)
    end.
    split; [done|]. simpl. by rewrite app_nil_r.
Qed.

(** ** The statements at concrete inputs *)

Lemma create_gatt_dbus_error_table_witness :
  @create_gatt_dbus_error sample_headers 1 0x0C
  = Some (g_dbus_create_error 1 "org.bluez.Error.NotPaired" "Not Paired")
  /\ @create_gatt_dbus_error sample_headers 1 0x0E
     = Some (g_dbus_create_error 1 "org.bluez.Error"
               "Operation failed with ATT error: 0x0e").
Proof.
  assert (NoDup (@switch_labels sample_headers)) as Hnd.
  { refine (bool_decide_unpack _ _). vm_compute. exact I. }
  destruct (@create_gatt_dbus_error_table sample_headers 1%nat Hnd)
    as (_ & _ & _ & Hpair & _ & _ & _ & _ & _ & Hother & _).
  split.
  - apply (Hpair 0x0C). right. right. reflexivity.
  - apply (Hother 0x0E). refine (bool_decide_unpack _ _). vm_compute. exact I.
Defined.

Lemma read_long_one_at_a_time_witness :
  characteristic_read_value sample_heap true (Some sample_gatt) 7
                            (with_in_read true sample_chrc)
  = (Some (btd_error_in_progress 7), with_in_read true sample_chrc, []).
Proof.
  destruct (@read_long_one_at_a_time sample_headers) as (_ & Hbusy & _).
  apply Hbusy. reflexivity.
Defined.

(** C10 as stated does not hold: the cache is dropped when shrinking it
    fails, too.  The cache holds the two bytes 01 02, the read brings the
    one byte 09 and the allocator refuses to resize the block: the value
    becomes unknown and the cache empty, although the buffer was to
    shrink, not to grow. *)
Lemma chrc_read_long_cb_failed_shrink :
  let chrc' :=
    final (@chrc_read_long_cb sample_headers failing_heap true
             {| op_msg := 7%nat |} true 0 [9] 1 sample_chrc) in
  (chrc_wf sample_chrc /\ 1 < value_len sample_chrc /\
   value_known chrc' = false /\ value chrc' = [] /\ value_len chrc' = 0)
  /\ ~ (forall (h : heap) (value_read : list Z) (len : Z)
           (chrc : characteristic),
          chrc_wf chrc -> len = Z.of_nat (length value_read) ->
          len <= UINT16_MAX ->
          value_known
            (final (@chrc_read_long_cb sample_headers h true
                      {| op_msg := 7%nat |} true 0 value_read len chrc))
          = false ->
          value_len chrc < len).
Proof.
  split; [by repeat split|].
  intros Hall.
  specialize (Hall failing_heap [9] 1 sample_chrc eq_refl eq_refl).
  simpl in Hall. unfold UINT16_MAX in Hall.
  specialize (Hall ltac:(lia) eq_refl). lia.
Qed.

Lemma chrc_read_long_cb_cache_witness :
  value (final (@chrc_read_long_cb sample_headers sample_heap true
                  {| op_msg := 7%nat |} true 0 [9; 8; 7] 3 sample_chrc))
  = [9; 8; 7].
Proof.
  assert (chrc_wf sample_chrc) as Hwf by reflexivity.
  assert (3 = Z.of_nat (length [9; 8; 7])) as Hlen by reflexivity.
  assert (3 <= UINT16_MAX) as Hmax by (unfold UINT16_MAX; lia).
  destruct (@chrc_read_long_cb_cache sample_headers sample_heap true
              {| op_msg := 7%nat |} 0 [9; 8; 7] 3 sample_chrc Hwf Hlen Hmax)
    as [[(_ & Hvalue & _)|(Hknown & _)] _].
  - exact Hvalue.
  - vm_compute in Hknown. discriminate Hknown.
Defined.

Lemma gatt_disconn_then_ready_witness :
  (("/org/bluez/hci0/dev_00/service0001/char0002/desc0004"%string,
    GATT_DESCRIPTOR_IFACE) ∉ bus (final (gatt_disconn_cb connected_world)))
  /\ services (client (final (gatt_ready_cb sample_gatt
                                (final (gatt_disconn_cb connected_world)))))
     = map (mirror_service "/org/bluez/hci0/dev_00")
           (gatt_services sample_gatt).
Proof.
  destruct (gatt_disconn_then_ready connected_world sample_gatt)
    as (Hgone & _ & _ & _ & _ & _ & _ & Hcalm).
  split.
  - apply (Hgone (mirror_service "/org/bluez/hci0/dev_00"
                    {| sd_primary := true; sd_start_handle := 1;
                       sd_end_handle := 5; sd_uuid := []; sd_iter_ok := true;
                       sd_chrcs :=
                         [ {| cd_start_handle := 2; cd_end_handle := 4;
                              cd_value_handle := 3; cd_properties := 2;
                              cd_uuid := [];
                              cd_descs :=
                                [ {| dd_handle := 4; dd_uuid := [] |} ] |} ]
                    |})).
    + apply list_elem_of_here.
    + simpl. apply list_elem_of_further, list_elem_of_further,
        list_elem_of_here.
  - apply Hcalm.
    + split; [reflexivity|]. intros path iface. reflexivity.
    + reflexivity.
    + repeat constructor.
Defined.

Lemma chrcs_ready_is_deferred_witness :
  events (set_chrcs_ready (final (gatt_ready_cb sample_gatt sample_world)))
  = [PropertyChanged "/org/bluez/hci0/dev_00/service0001"
       GATT_SERVICE_IFACE "Characteristics"].
Proof.
  destruct chrcs_ready_is_deferred as (_ & _ & _ & Hready & _).
  destruct (Hready (final (gatt_ready_cb sample_gatt sample_world))
              sample_gatt) as (_ & _ & Hev & _).
  - reflexivity.
  - rewrite Hev. reflexivity.
Defined.

(** The read of a 3-byte value into a cache of 2 bytes, when the allocator
    refuses: the old value is dropped and the property disappears. *)
Example chrc_read_long_cb_no_memory :
  let c := final (@chrc_read_long_cb sample_headers failing_heap true
                    {| op_msg := 7%nat |} true 0 [9; 8; 7] 3 sample_chrc) in
  value_known c = false /\ value c = [] /\
  characteristic_property_value_exists c = false.
Proof. repeat split. Qed.

(* ===================================================================== *)
(** * Further properties *)
(* ===================================================================== *)

(** ** tools/btgatt-server.c: [parse_args] *)

Lemma strsep_scan_token s tok rest :
  strsep_scan s = (tok, rest) ->
  Forall (fun c => is_delim c = false) (list_ascii_of_string tok).
Proof.
  revert tok rest. induction s as [|c s IH]; intros tok rest; simpl.
  - intros [= <- <-]. constructor.
  - destruct (is_delim c) eqn:Hc.
    + intros [= <- <-]. constructor.
    + destruct (strsep_scan s) as [tok' rest'] eqn:Hs.
      intros [= <- <-]. simpl. constructor; [done|]. by eapply IH.
Qed.

Lemma parse_args_loop_spec fuel str expected argv argc :
  argc <= expected ->
  let r := parse_args_loop fuel str expected argv argc in
  exists new,
    r.1.2 = argv ++ new /\
    r.2 = argc + Z.of_nat (length new) /\
    Forall token_ok new /\
    (if r.1.1 then r.2 <= expected else r.2 = expected + 1).
Proof.
  revert str argv argc.
  induction fuel as [|fuel IH]; intros str argv argc Hle; simpl.
  - exists []. rewrite app_nil_r. simpl. repeat split; try done; lia.
  - destruct str as [s|]; simpl.
    2:{ exists []. rewrite app_nil_r. simpl. repeat split; try done; lia. }
    destruct (strsep_scan s) as [tok rest] eqn:Hs.
    destruct (String.eqb tok EmptyString) eqn:Hempty; [by apply IH|].
    apply String.eqb_neq in Hempty.
    assert (token_ok tok) as Htok.
    { split; [done|]. by eapply strsep_scan_token. }
    destruct (argc + 1 >? expected) eqn:Hmany; simpl.
    + exists [tok]. simpl. apply Z.gtb_lt in Hmany.
      repeat split; try lia. by constructor.
    + destruct (IH rest (argv ++ [tok]) (argc + 1)) as (new & Hv & Hc & Hok & Hend);
        [lia|].
      exists (tok :: new). rewrite Hv, Hc, <- app_assoc.
      split; [done|]. split; [simpl length; lia|].
      split; [by constructor|].
      destruct (parse_args_loop fuel rest expected (argv ++ [tok]) (argc + 1)).1.1;
        lia.
Qed.

(** X1: [parse_args] stores only tokens that are not empty and hold no
    space or tab, adds one to [*argc] for each token it stores, returns
    true only with [*argc] within [expected_argc], and returns false as
    soon as [*argc] is one above it; a [NULL] string gives no token. *)
Theorem parse_args_tokens (str : option string) (expected argc : Z) :
  argc <= expected ->
  let r := parse_args str expected argc in
  Forall token_ok r.1.2 /\
  r.2 = argc + Z.of_nat (length r.1.2) /\
  (r.1.1 = true -> r.2 <= expected) /\
  (r.1.1 = false -> r.2 = expected + 1) /\
  (str = None -> r = (true, [], argc)).
Proof.
  intros Hle r. subst r. unfold parse_args.
  destruct (parse_args_loop_spec (S (strsep_measure str)) str expected []
              argc Hle) as (new & Hv & Hc & Hok & Hend).
  cbn [app] in Hv. rewrite Hv, Hc.
  split; [done|]. split; [done|].
  split; [|split].
  - intros Htrue. rewrite Htrue in Hend. lia.
  - intros Hfalse. rewrite Hfalse in Hend. lia.
  - intros ->. reflexivity.
Qed.

Lemma parse_args_tokens_witness :
  (parse_args (Some " -i  0x0001 0a"%string) 514 1).1.2
  = ["-i"; "0x0001"; "0a"]%string
  /\ Forall token_ok (parse_args (Some " -i  0x0001 0a"%string) 514 1).1.2.
Proof.
  split; [reflexivity|].
  apply (parse_args_tokens (Some " -i  0x0001 0a"%string) 514 1). lia.
Defined.

(** ** tools/btgatt-server.c: what [cmd_notify] sends *)

Lemma getopt_scan_bounds args indicate optind indicate' optind' :
  getopt_scan args indicate optind = Some (indicate', optind') ->
  optind <= optind' <= optind + Z.of_nat (length args).
Proof.
  revert indicate optind.
  induction args as [|arg args IH]; intros indicate optind; simpl.
  - intros [= <- <-]. lia.
  - destruct arg as [|c1 [|c2 rest]].
    + intros [= <- <-]. lia.
    + destruct (Ascii.eqb_spec c1 "-") as [->|Hc1].
      * intros [= <- <-]. lia.
      * intros Hscan.
        assert (Some (indicate, optind) = Some (indicate', optind')) as [= <- <-].
        { rewrite <- Hscan. destruct c1 as [[] [] [] [] [] [] [] []]; done. }
        lia.
    + destruct (Ascii.eqb_spec c1 "-") as [->|Hc1].
      * destruct (Ascii.eqb_spec c2 "-") as [->|Hc2].
        -- destruct rest.
           ++ intros [= <- <-]. lia.
           ++ destruct (long_option_ok _); [|done].
              intros Hscan. apply IH in Hscan. lia.
        -- intros Hscan.
           assert ((if short_options_ok (String c2 rest)
                    then getopt_scan args true (optind + 1) else None)
                   = Some (indicate', optind')) as Hshort.
           { rewrite <- Hscan.
             destruct c2 as [[] [] [] [] [] [] [] []]; done. }
           destruct (short_options_ok _); [|done].
           apply IH in Hshort. lia.
      * intros Hscan.
        assert (Some (indicate, optind) = Some (indicate', optind')) as [= <- <-].
        { rewrite <- Hscan. destruct c1 as [[] [] [] [] [] [] [] []]; done. }
        lia.
Qed.

Lemma uint8_range z : 0 <= uint8 z < 256.
Proof. unfold uint8. apply Z.mod_pos_bound. lia. Qed.

Lemma parse_value_ok args errno value :
  parse_value args errno = inr value ->
  length value = length args /\
  Forall (fun b => 0 <= b < 256) value /\
  (args <> [] -> errno = false).
Proof.
  revert errno value. induction args as [|arg args IH]; intros errno value.
  - intros [= <-]. done.
  - simpl. destruct (negb (Nat.eqb (String.length arg) 2)); [done|].
    destruct (strtol16 arg) as [[v endptr] erange].
    destruct (Nat.eqb endptr 0 || negb (at_end arg endptr)
              || (errno || erange))%bool eqn:Hbad; [done|].
    destruct (parse_value args (errno || erange)) as [|rest] eqn:Hrest;
      [done|].
    intros [= <-]. destruct (IH _ _ Hrest) as (Hlen & Hbytes & _).
    split; [simpl; lia|]. split.
    + constructor; [apply uint8_range|done].
    + intros _. apply orb_false_iff in Hbad as [_ Hbad].
      by apply orb_false_iff in Hbad as [-> _].
Qed.

(** [cmd_notify] calls into the GATT server at most once, as the first
    thing it does to the outside, and then with a handle that is not 0, the
    value bytes it parsed and their number. *)
Lemma cmd_notify_cases (h : heap) (errno send_ok : bool) (s : server)
    (cmd_str : option string) :
  let out := cmd_notify h errno send_ok s cmd_str in
  Forall (fun e => is_send e = false) out
  \/ exists e rest,
       out = e :: rest /\ is_send e = true /\
       Forall (fun e => is_send e = false) rest /\
       send_ok_for s e /\
       (errno = true -> send_value e = []).
Proof.
  unfold cmd_notify.
  destruct (parse_args_loop_spec (S (strsep_measure cmd_str)) cmd_str 514 []
              1 ltac:(lia)) as (args & Hargs & Hargc & _ & Hmax).
  fold (parse_args cmd_str 514 1) in Hargs, Hargc, Hmax.
  destruct (parse_args cmd_str 514 1) as [[ok args'] argc].
  simpl in Hargs, Hargc, Hmax. subst args' argc.
  destruct ok; simpl; [|left; by repeat constructor].
  destruct (getopt_scan args false 1) as [[indicate optind]|] eqn:Hopt;
    [|left; by repeat constructor].
  apply getopt_scan_bounds in Hopt.
  destruct (1 + Z.of_nat (length args) - optind <? 1) eqn:Hnone;
    [left; by repeat constructor|].
  apply Z.ltb_ge in Hnone.
  set (argv := drop (Z.to_nat (optind - 1)) args).
  destruct (strtol16 (hd EmptyString argv)) as [[v endptr] erange].
  destruct (negb (at_end (hd EmptyString argv) endptr) || (uint16 v =? 0))%bool
    eqn:Hbad; [left; by repeat constructor|].
  apply orb_false_iff in Hbad as [_ Hzero]. apply Z.eqb_neq in Hzero.
  pose proof (uint16_range v) as Hrange.
  assert (length (tl argv)
          = Z.to_nat (1 + Z.of_nat (length args) - optind - 1)) as Hvalues.
  { subst argv. destruct (drop _ args) as [|a l] eqn:Hdrop.
    - apply (f_equal length) in Hdrop. rewrite length_drop in Hdrop.
      simpl in *. lia.
    - apply (f_equal length) in Hdrop. rewrite length_drop in Hdrop.
      simpl in *. lia. }
  destruct (1 + Z.of_nat (length args) - optind - 1 >? 0) eqn:Hsome.
  - destruct (1 + Z.of_nat (length args) - optind - 1 >? UINT16_MAX);
      [left; by repeat constructor|].
    destruct (negb (alloc_ok h)); [left; by repeat constructor|].
    destruct (parse_value (tl argv) (errno || erange)) as [text|value]
      eqn:Hvalue; [left; by repeat constructor|].
    destruct (parse_value_ok _ _ _ Hvalue) as (Hlen & Hbytes & Herr).
    assert (errno = true -> value = []) as Hstale.
    { intros ->. destruct (tl argv) as [|a l] eqn:Htl.
      - by destruct value.
      - by specialize (Herr ltac:(done)). }
    right. destruct indicate.
    + eexists _, _. split; [reflexivity|]. split; [done|].
      split; [destruct send_ok; by repeat constructor|].
      split; [|done]. simpl. repeat split; try done; lia.
    + eexists _, _. split; [reflexivity|]. split; [done|].
      split; [destruct send_ok; by repeat constructor|].
      split; [|done]. simpl. repeat split; try done; lia.
  - rewrite Z.gtb_ltb in Hsome. apply Z.ltb_ge in Hsome.
    right. destruct indicate.
    + eexists _, _. split; [reflexivity|]. split; [done|].
      split; [destruct send_ok; by repeat constructor|].
      split; [|done]. simpl. repeat split; try done; lia.
    + eexists _, _. split; [reflexivity|]. split; [done|].
      split; [destruct send_ok; by repeat constructor|].
      split; [|done]. simpl. repeat split; try done; lia.
Qed.

(** X2: whatever the command line, [cmd_notify] calls
    [bt_gatt_server_send_notification] or [bt_gatt_server_send_indication]
    at most once, and when it does, the call names the server's own GATT
    instance, a handle between 0x0001 and 0xFFFF, at most 512 value
    bytes, each between 0 and 255, and a length equal to their number. *)
Theorem cmd_notify_sends_well (h : heap) (errno send_ok : bool) (s : server)
    (cmd_str : option string) :
  let out := cmd_notify h errno send_ok s cmd_str in
  Forall (send_ok_for s) out /\
  (length (filter (fun e => is_send e = true) out) <= 1)%nat.
Proof.
  intros out.
  assert (forall l, Forall (fun e => is_send e = false) l ->
            Forall (send_ok_for s) l
            /\ filter (fun e => is_send e = true) l = []) as Hquiet.
  { induction l as [|e l IH]; intros Hl; [done|].
    apply Forall_cons in Hl as [He Hl]. destruct (IH Hl) as [Hok Hnone].
    split.
    - constructor; [|done]. by destruct e.
    - rewrite filter_cons, Hnone. destruct (decide (is_send e = true));
        [congruence|done]. }
  destruct (cmd_notify_cases h errno send_ok s cmd_str)
    as [Hnone|(e & rest & Hout & He & Hrest & Hok & _)]; subst out.
  - destruct (Hquiet _ Hnone) as [Hok ->]. split; [done|simpl; lia].
  - rewrite Hout. destruct (Hquiet _ Hrest) as [Hokr Hnoner].
    split; [by constructor|].
    rewrite filter_cons, Hnoner. destruct (decide (is_send e = true)); done.
Qed.


Example cmd_notify_stale_errno_value :
  cmd_notify sample_heap true true sample_server (Some "0x0001 01"%string)
  = [Printf ("Invalid value byte: 01" ++ LF)%string].
Proof. reflexivity. Qed.

(** The handle overflows [long]: it is cut to 0xFFFF and accepted, and the
    [ERANGE] it leaves makes the value byte fail. *)
Example cmd_notify_overflowing_handle :
  cmd_notify sample_heap false true sample_server
             (Some "ffffffffffffffffffff 01"%string)
  = [Printf ("Invalid value byte: 01" ++ LF)%string].
Proof. reflexivity. Qed.

(** ** tools/btgatt-server.c: the attribute callbacks together *)

(** X4: what the Service Changed CCC reads as follows what was written to
    it.  A read always completes without error with two bytes.  After a
    write that completed without error these are the first byte written
    and 00, whatever the second byte written was; after a write that
    completed with an error they are what a read gave before. *)
Theorem ccc_write_then_read (s : server) (offset : Z)
    (value : option (list Z)) (len : Z) :
  let r := gatt_svc_chngd_ccc_write_cb s offset value len in
  let after := gatt_svc_chngd_ccc_read_cb r.1 in
  rr_error after = 0 /\ rr_len after = 2 /\
  length (rr_bytes after) = 2%nat /\
  (r.2 = 0 ->
   exists v, value = Some v /\ len = 2 /\ offset = 0 /\
             rr_bytes after = [nth 0 v 0; 0x00]) /\
  (r.2 <> 0 -> after = gatt_svc_chngd_ccc_read_cb s).
Proof.
  unfold gatt_svc_chngd_ccc_write_cb.
  destruct value as [v|]; simpl; [|by repeat split].
  destruct (Z.eqb_spec len 2) as [->|Hlen]; simpl; [|by repeat split].
  destruct (Z.eqb_spec offset 0) as [->|Hoff]; simpl; [|by repeat split].
  destruct (Z.eqb_spec (nth 0 v 0) 0) as [H0|H0]; simpl.
  { repeat split; try done. intros _. exists v. by rewrite H0. }
  destruct (Z.eqb_spec (nth 0 v 0) 2) as [H2|H2]; simpl.
  { repeat split; try done. intros _. exists v. by rewrite H2. }
  by repeat split.
Qed.

Lemma gap_device_name_write_wf (h : heap) (s : server) (offset : Z)
    (value : option (list Z)) (len : Z) :
  server_wf s -> server_wf (gap_device_name_write_cb h s offset value len).1.
Proof.
  unfold server_wf, gap_device_name_write_cb. intros Hwf.
  destruct (offset >? name_len s); [done|].
  destruct (size_t (offset + len) =? name_len s); simpl.
  - destruct value as [v|]; simpl; [|done]. by rewrite memcpy_length.
  - assert (0 <= size_t (offset + len)) as Hsize.
    { unfold size_t. apply Z.mod_pos_bound. lia. }
    destruct (realloc h (device_name s) (size_t (offset + len)))
      as [blk|] eqn:Hblk; simpl.
    + pose proof (realloc_length _ _ _ _ Hblk) as Hblklen.
      destruct value as [v|]; simpl; rewrite ?memcpy_length; lia.
    + unfold after_null.
      destruct (realloc_frees _ _); [|done].
      by rewrite length_map, length_seq.
Qed.




Lemma gap_device_name_read_bytes (s : server) (offset : Z) :
  server_wf s -> 0 <= offset <= name_len s ->
  let r := gap_device_name_read_cb s offset in
  rr_error r = 0 /\ rr_bytes r = drop (Z.to_nat offset) (device_name s).
Proof.
  intros Hwf Hoff. unfold server_wf in Hwf.
  unfold gap_device_name_read_cb, rr_bytes.
  destruct (offset >? name_len s) eqn:Hgt; [lia|]. simpl.
  split; [done|].
  destruct (name_len s - offset =? 0) eqn:Hz.
  - apply Z.eqb_eq in Hz. by rewrite drop_ge by lia.
  - apply take_ge. rewrite length_drop. lia.
Qed.

(** X6: what the GAP Device Name reads as follows what was written to it,
    whatever the allocator does.  After a write at offset o that completed
    without error, a read at offset o completes without error with exactly
    the bytes written, and a read at offset 0 gives o + n bytes that end
    in the bytes written. *)
Theorem gap_device_name_write_then_read (h : heap) (s : server) (o : Z)
    (value : option (list Z)) (n : Z) :
  server_wf s -> 0 <= o <= UINT16_MAX -> valid_buf value n ->
  o + n <= SIZE_MAX ->
  let r := gap_device_name_write_cb h s o value n in
  r.2 = 0 ->
  o <= name_len s /\
  name_len r.1 = o + n /\
  rr_error (gap_device_name_read_cb r.1 o) = 0 /\
  rr_bytes (gap_device_name_read_cb r.1 o) = buf_bytes value /\
  rr_error (gap_device_name_read_cb r.1 0) = 0 /\
  Z.of_nat (length (rr_bytes (gap_device_name_read_cb r.1 0))) = o + n /\
  drop (Z.to_nat o) (rr_bytes (gap_device_name_read_cb r.1 0))
  = buf_bytes value.
Proof.
  intros Hwf Ho Hbuf Hmax r Hok.
  pose proof (gap_device_name_write_wf h s o value n Hwf) as Hwf'.
  fold r in Hwf'.
  assert (0 <= n /\ Z.of_nat (length (buf_bytes value)) = n) as [Hn Hbytes].
  { destruct value; simpl in *; lia. }
  assert (size_t (o + n) = o + n) as Hsz.
  { unfold size_t. apply Z.mod_small. unfold SIZE_MAX in Hmax. lia. }
  assert (o <= name_len s) as Hle.
  { subst r. unfold gap_device_name_write_cb in Hok.
    destruct (o >? name_len s) eqn:Hgt; [done|lia]. }
  assert (name_len r.1 = o + n /\
          exists pre, length pre = Z.to_nat o /\
                      device_name r.1 = pre ++ buf_bytes value)
    as (Hlen & pre & Hpre & Hname).
  { destruct (decide (o + n = name_len s)) as [Heq|Hne].
    - destruct (gap_device_name_write_name h s o value n)
        as (_ & Hl & Hnm); [done|lia|done|done|by right|].
      fold r in Hl, Hnm. split; [done|].
      eexists. split; [|exact Hnm].
      unfold server_wf in Hwf. rewrite length_take. lia.
    - destruct (realloc h (device_name s) (o + n)) as [blk|] eqn:Hblk.
      + destruct (gap_device_name_write_resized h s o value n blk)
          as (_ & Hl & Hnm); [done|lia|done|done|done|done|].
        fold r in Hl, Hnm. split; [done|].
        eexists. split; [|exact Hnm].
        pose proof (realloc_length _ _ _ _ Hblk).
        rewrite length_take, memcpy_length. lia.
      + subst r. unfold gap_device_name_write_cb in Hok.
        rewrite Hsz, Hblk in Hok.
        destruct (o >? name_len s); [done|].
        destruct (o + n =? name_len s) eqn:Heq;
          [apply Z.eqb_eq in Heq; lia|done]. }
  destruct (gap_device_name_read_bytes r.1 o Hwf') as [He Hb]; [lia|].
  destruct (gap_device_name_read_bytes r.1 0 Hwf') as [He0 Hb0]; [lia|].
  cbv zeta in He, Hb, He0, Hb0.
  rewrite He, Hb, He0, Hb0, Hname. simpl (Z.to_nat 0). rewrite drop_0.
  rewrite drop_app_length' by done.
  repeat split; try done.
  rewrite length_app. lia.
Qed.

Lemma gap_device_name_write_nothing_witness :
  (gap_device_name_write_cb moving_heap sample_server 0 None 0).2 = 0x11
  /\ device_name
       (gap_device_name_write_cb moving_heap sample_server 0 None 0).1
     = [0; 0; 0; 0; 0].
Proof.
  destruct (gap_device_name_write_nothing moving_heap sample_server None)
    as (Herror & _ & Hname); [reflexivity|reflexivity|].
  split; [exact Herror|exact Hname].
Defined.

Lemma gap_device_name_write_then_read_witness :
  rr_bytes
    (gap_device_name_read_cb
       (gap_device_name_write_cb moving_heap sample_server 5 (Some [33]) 1).1
       5)
  = [33].
Proof.
  refine (proj1 (proj2 (proj2 (proj2
    (gap_device_name_write_then_read moving_heap sample_server 5
       (Some [33]) 1 _ _ _ _ _))))).
  - reflexivity.
  - unfold UINT16_MAX. lia.
  - reflexivity.
  - unfold SIZE_MAX. lia.
  - reflexivity.
Defined.

(** ** tools/btgatt-server.c: the console *)

Lemma cmd_help_quiet (s : server) (cmd_str : option string) :
  Forall (fun e => is_send e = false) (cmd_help s cmd_str).
Proof. unfold cmd_help. by repeat constructor. Qed.

(** The loop of [prompt_read_cb] ends by itself: with any count above the
    measure of the line it gives the same. *)
Lemma first_token_fuel (n m : nat) (args : option string) :
  (strsep_measure args < n)%nat -> (strsep_measure args < m)%nat ->
  first_token n args = first_token m args.
Proof.
  revert m args. induction n as [|n IH]; intros m args Hn Hm; [lia|].
  destruct m as [|m]; [lia|]. simpl.
  destruct args as [line|]; simpl; [|done].
  destruct (strsep_scan line) as [tok rest] eqn:Hline.
  destruct (negb (String.eqb tok EmptyString)); [done|].
  pose proof (strsep_scan_measure _ _ _ Hline). simpl in Hn, Hm.
  apply IH; lia.
Qed.

(** The output of a command followed by the prompt. *)
Lemma console_run (s : server) (l : list Server.event) :
  Forall (fun e => is_send e = false) l
  \/ (exists e rest, l = e :: rest /\ is_send e = true /\
                     Forall (fun e => is_send e = false) rest /\
                     send_ok_for s e) ->
  let out := map Run l ++ [Prompt] in
  Forall (console_send_ok s) out /\
  (length (filter (fun ce => console_send ce = true) out) <= 1)%nat /\
  last out = Some Prompt /\
  length (filter (fun ce => is_prompt ce = true) out) = 1%nat.
Proof.
  assert (forall q : list Server.event,
            Forall (fun e => is_send e = false) q ->
            Forall (console_send_ok s) (map Run q ++ [Prompt]) /\
            filter (fun ce => console_send ce = true) (map Run q ++ [Prompt])
            = [] /\
            last (map Run q ++ [Prompt]) = Some Prompt /\
            filter (fun ce => is_prompt ce = true) (map Run q ++ [Prompt])
            = [Prompt]) as Hquiet.
  { induction q as [|e q IH]; intros Hq; [by repeat constructor|].
    apply Forall_cons in Hq as [He Hq].
    destruct (IH Hq) as (Hok & Hnone & Hlast & Hprompt).
    split; [|split; [|split]].
    - simpl. constructor; [by destruct e|done].
    - simpl. rewrite filter_cons, Hnone.
      destruct (decide (console_send (Run e) = true)) as [Hs|]; [|done].
      simpl in Hs. congruence.
    - simpl. rewrite last_cons, Hlast. done.
    - simpl. rewrite filter_cons, Hprompt.
      by destruct (decide (is_prompt (Run e) = true)). }
  intros [Hnone|(e & rest & -> & He & Hrest & Hok)] out; subst out.
  - destruct (Hquiet _ Hnone) as (Hok & -> & Hlast & ->).
    repeat split; try done. simpl. lia.
  - destruct (Hquiet _ Hrest) as (Hokr & Hnoner & Hlast & Hprompt).
    split; [|split; [|split]].
    + simpl. by constructor.
    + simpl. rewrite filter_cons, Hnoner.
      destruct (decide (console_send (Run e) = true)); done.
    + simpl. by rewrite last_cons, Hlast.
    + simpl. rewrite filter_cons, Hprompt.
      by destruct (decide (is_prompt (Run e) = true)).
Qed.

(** X7: what [prompt_read_cb] does to the outside.  On a hangup or an
    error of standard input it only quits the main loop; when [getline]
    fails it does nothing; for every line read it prints the prompt once,
    as the last thing it does.  It calls into the GATT server at most
    once, only when the first word of the line is [notify], and then with
    the server's own GATT instance, a handle between 0x0001 and 0xFFFF and
    at most 512 value bytes with their number. *)
Theorem prompt_read_cb_sends_well (h : heap) (errno send_ok : bool)
    (s : server) (hangup : bool) (input : option string) :
  let out := prompt_read_cb h errno send_ok s hangup input in
  Forall (console_send_ok s) out /\
  (length (filter (fun ce => console_send ce = true) out) <= 1)%nat /\
  (hangup = true -> out = [MainloopQuit]) /\
  (hangup = false -> input = None -> out = []) /\
  (hangup = false -> input <> None ->
   last out = Some Prompt /\
   length (filter (fun ce => is_prompt ce = true) out) = 1%nat) /\
  (Exists (fun ce => console_send ce = true) out ->
   hangup = false /\
   exists line, input = Some line /\ (1 < String.length line)%nat /\
                command_word line = Some "notify"%string).
Proof.
  assert (forall l : list console_event,
            Forall (fun ce => console_send ce = false) l ->
            ~ Exists (fun ce => console_send ce = true) l) as Hnever.
  { intros l Hl Hex. apply Exists_exists in Hex as (ce & Hin & Hce).
    rewrite Forall_forall in Hl. specialize (Hl _ Hin). congruence. }
  assert (forall l : list Server.event,
            Forall (fun e => is_send e = false) l ->
            ~ Exists (fun ce => console_send ce = true)
                (map Run l ++ [Prompt])) as Hquiet.
  { intros l Hl. apply Hnever. apply Forall_app. split; [|by repeat constructor].
    apply Forall_fmap. eapply Forall_impl; [exact Hl|]. done. }
  unfold prompt_read_cb.
  destruct hangup.
  { split; [by repeat constructor|]. split; [simpl; lia|].
    split; [done|]. split; [done|]. split; [done|].
    intros Hex. apply Hnever in Hex; [done|by repeat constructor]. }
  destruct input as [line|].
  2:{ split; [constructor|]. split; [simpl; lia|].
      split; [done|]. split; [done|]. split; [done|].
      intros Hex. by apply Exists_nil in Hex. }
  destruct (String.length line <=? 1)%nat eqn:Hshort.
  { destruct (console_run s (cmd_help s None)) as (Hok & Hone & Hlast & Hpr);
      [left; apply cmd_help_quiet|].
    split; [done|]. split; [done|].
    split; [done|]. split; [done|]. split; [done|].
    intros Hex. apply Hquiet in Hex; [done|apply cmd_help_quiet]. }
  apply Nat.leb_gt in Hshort.
  set (line' := String.substring 0 (String.length line - 1) line).
  destruct (first_token (S (strsep_measure (Some line'))) (Some line'))
    as [cmd1 args] eqn:Hword.
  destruct cmd1 as [cmd1|].
  2:{ split; [by repeat constructor|]. split; [simpl; lia|].
      split; [done|]. split; [done|]. split; [done|].
      intros Hex. apply Hnever in Hex; [done|by repeat constructor]. }
  unfold command. cbn [find cmd].
  destruct (String.eqb_spec "help" cmd1) as [<-|Hhelp].
  { cbn [func].
    destruct (console_run s (cmd_help s args)) as (Hok & Hone & Hlast & Hpr);
      [left; apply cmd_help_quiet|].
    split; [done|]. split; [done|].
    split; [done|]. split; [done|]. split; [done|].
    intros Hex. apply Hquiet in Hex; [done|apply cmd_help_quiet]. }
  destruct (String.eqb_spec "notify" cmd1) as [<-|Hnotify].
  { cbn [func].
    destruct (console_run s (cmd_notify h errno send_ok s args))
      as (Hok & Hone & Hlast & Hpr).
    { destruct (cmd_notify_cases h errno send_ok s args)
        as [Hnone|(e & rest & Hout & He & Hrest & Hsend & _)];
        [by left|right; eauto 10]. }
    split; [done|]. split; [done|].
    split; [done|]. split; [done|]. split; [done|].
    intros _. split; [done|]. exists line.
    split; [done|]. split; [lia|].
    unfold command_word. cbv zeta. fold line'. by rewrite Hword. }
  split; [by repeat constructor|]. split; [simpl; lia|].
  split; [done|]. split; [done|]. split; [done|].
  intros Hex. apply Hnever in Hex; [done|by repeat constructor].
Qed.

Lemma prompt_read_cb_sends_well_witness :
  last (prompt_read_cb sample_heap false true sample_server false
          (Some ("  notify -i 0x0003 0a" ++ LF)%string))
  = Some Prompt.
Proof.
  refine (proj1 (proj1 (proj2 (proj2 (proj2 (proj2
    (prompt_read_cb_sends_well sample_heap false true sample_server false
       (Some ("  notify -i 0x0003 0a" ++ LF)%string)))))) _ _)).
  - reflexivity.
  - discriminate.
Defined.

Example prompt_read_cb_notify :
  prompt_read_cb sample_heap false true sample_server false
    (Some ("  notify -i 0x0003 0a" ++ LF)%string)
  = [Run (SendIndication 2%nat 3 [10] 1); Prompt].
Proof. reflexivity. Qed.

(** The message names what is before the first blank of the line, which
    is nothing when the line starts with one. *)
Example prompt_read_cb_unknown :
  prompt_read_cb sample_heap false true sample_server false
    (Some (" read 0x0003" ++ LF)%string)
  = [Stderr ("Unknown command: " ++ LF)%string; Prompt].
Proof. reflexivity. Qed.

(** ** src/gatt-client.c: nothing is left on the bus *)





















(** ** src/gatt-client.c: what a completed read tells the bus *)

Section ReadReplies.
Context `{headers}.

(** X9: the Value property never changes silently.  Whenever the
    read-long completion callback leaves the Value property different from
    what it was, in existence or in content, it emits the PropertyChanged
    signal for Value on the characteristic's path.  Whatever it emits is
    at most that one signal followed by at most one message, the reply to
    the pending method call; a failed read is answered with the error
    reply alone and leaves everything but [in_read] as it was. *)
Theorem chrc_read_long_cb_signals (h : heap) (reply_ok : bool)
    (op : chrc_dbus_op) (success : bool) (att_ecode : Z)
    (value_read : list Z) (len : Z) (chrc : characteristic) :
  let r := chrc_read_long_cb h reply_ok op success att_ecode value_read len
                             chrc in
  (value_property (final r) <> value_property chrc ->
   value_signal chrc ∈ events r) /\
  (exists signals messages,
     events r = signals ++ messages /\
     (signals = [] \/ signals = [value_signal chrc]) /\
     Forall (fun e => is_message e = true) messages /\
     (length messages <= 1)%nat) /\
  (success = false ->
   events r = [SendMessage (create_gatt_dbus_error (op_msg op) att_ecode)]
   /\ final r = with_in_read false chrc) /\
  (success = true -> reply_ok = true ->
   last (events r)
   = Some (SendMessage
             (Some (method_return (op_msg op)
                      (take (Z.to_nat len) value_read))))).
Proof.
  unfold chrc_read_long_cb.
  cbv [bind ret get put modify emit final events trace negb].
  set (c0 := with_in_read false chrc).
  assert (value_property c0 = value_property chrc) as Hsame0 by done.
  destruct success.
  2:{ cbn [fst snd app map].
      split; [by rewrite Hsame0|]. split; [|done].
      exists [], [SendMessage (create_gatt_dbus_error (op_msg op) att_ecode)].
      repeat split; try done; [by left|by repeat constructor]. }
  destruct (value_known c0 && (value_len c0 =? len)
            && memcmp_eq (value c0) value_read len).
  { destruct reply_ok; cbn [fst snd app map].
    - split; [by rewrite Hsame0|]. split; [|done].
      eexists [], [_]. repeat split; try done;
        [by left|by repeat constructor].
    - split; [by rewrite Hsame0|]. split; [|done].
      exists [], []. repeat split; try done; [by left|simpl; lia]. }
  destruct (chrc_resize_value_spec h len c0) as [Htr Hres].
  destruct (chrc_resize_value h len c0) as [[resized c1] t1].
  cbv [trace result final fst snd] in Htr, Hres. subst t1.
  destruct Hres as [(-> & blk & _ & _ & ->)|(-> & -> & _)];
    destruct reply_ok; cbn [fst snd app map].
  all: split; [intros _; apply list_elem_of_here|].
  all: split; [|done].
  all: try (eexists [_], [_]; repeat split; try done;
            [by right|by repeat constructor]).
  all: eexists [_], []; repeat split; try done; [by right|simpl; lia].
Qed.

End ReadReplies.

Example chrc_read_long_cb_same_value :
  events (@chrc_read_long_cb sample_headers sample_heap true
            {| op_msg := 7%nat |} true 0 [1; 2] 2 sample_chrc)
  = [SendMessage (Some (method_return 7 [1; 2]))].
Proof. reflexivity. Qed.

(** ** src/gatt-client.c: the object paths *)

Lemma append_inj_l (p a b : string) : (p ++ a = p ++ b)%string -> a = b.
Proof. induction p as [|c p IH]; simpl; [done|]. intros [= Heq]. auto. Qed.

(** The four digits of [%04x] give the handle back. *)
Lemma fmt_04x_inj (v1 v2 : Z) :
  0 <= v1 <= UINT16_MAX -> 0 <= v2 <= UINT16_MAX ->
  fmt_04x v1 = fmt_04x v2 -> v1 = v2.
Proof.
  unfold UINT16_MAX. intros H1 H2 Heq.
  assert (fmt_02x (v1 / 256) = fmt_02x (v2 / 256)
          /\ fmt_02x (v1 mod 256) = fmt_02x (v2 mod 256)) as [Hhi Hlo].
  { unfold fmt_04x, fmt_02x in *. simpl in Heq.
    injection Heq as -> -> -> ->. done. }
  apply fmt_02x_inj in Hhi, Hlo;
    try (apply Z.mod_pos_bound; lia);
    try (split; [apply Z.div_pos; lia|apply Z.div_lt_upper_bound; lia]).
  rewrite (Z.div_mod v1 256), (Z.div_mod v2 256) by lia. congruence.
Qed.

(** X10: objects for attributes with different handles never share a
    path.  Two services that [service_create] exports for the same
    client, two characteristics that [characteristic_create] exports for
    the same service and two descriptors that [descriptor_create] exports
    for the same characteristic have different object paths whenever the
    handles they are made for, which are [uint16_t], differ. *)
Theorem created_paths_distinct (c : btd_gatt_client) (svc : service)
    (chrc : characteristic) :
  (forall sd1 sd2 w1 w2 s1 s2,
     0 <= sd_start_handle sd1 <= UINT16_MAX ->
     0 <= sd_start_handle sd2 <= UINT16_MAX ->
     result (service_create sd1 c w1) = Some s1 ->
     result (service_create sd2 c w2) = Some s2 ->
     sd_start_handle sd1 <> sd_start_handle sd2 ->
     svc_path s1 <> svc_path s2) /\
  (forall cd1 cd2 w1 w2 c1 c2,
     0 <= cd_start_handle cd1 <= UINT16_MAX ->
     0 <= cd_start_handle cd2 <= UINT16_MAX ->
     result (characteristic_create cd1 svc w1) = Some c1 ->
     result (characteristic_create cd2 svc w2) = Some c2 ->
     cd_start_handle cd1 <> cd_start_handle cd2 ->
     chrc_path c1 <> chrc_path c2) /\
  (forall dd1 dd2 w1 w2 d1 d2,
     0 <= dd_handle dd1 <= UINT16_MAX ->
     0 <= dd_handle dd2 <= UINT16_MAX ->
     result (descriptor_create dd1 chrc w1) = Some d1 ->
     result (descriptor_create dd2 chrc w2) = Some d2 ->
     dd_handle dd1 <> dd_handle dd2 ->
     desc_path d1 <> desc_path d2).
Proof.
  split; [|split].
  - intros sd1 sd2 w1 w2 s1 s2 H1 H2 Hs1 Hs2 Hne Hpath.
    destruct (yields_service_create sd1 c w1) as [Hm1 _].
    destruct (yields_service_create sd2 c w2) as [Hm2 _].
    rewrite (Hm1 _ Hs1), (Hm2 _ Hs2) in Hpath. simpl in Hpath.
    apply append_inj_l in Hpath.
    apply (append_inj_l "/service") in Hpath.
    by apply fmt_04x_inj in Hpath.
  - intros cd1 cd2 w1 w2 c1 c2 H1 H2 Hc1 Hc2 Hne Hpath.
    destruct (yields_characteristic_create cd1 svc w1) as [Hm1 _].
    destruct (yields_characteristic_create cd2 svc w2) as [Hm2 _].
    rewrite (Hm1 _ Hc1), (Hm2 _ Hc2) in Hpath. simpl in Hpath.
    apply append_inj_l in Hpath.
    apply (append_inj_l "/char") in Hpath.
    by apply fmt_04x_inj in Hpath.
  - intros dd1 dd2 w1 w2 d1 d2 H1 H2 Hd1 Hd2 Hne Hpath.
    destruct (yields_descriptor_create dd1 chrc w1) as [Hm1 _].
    destruct (yields_descriptor_create dd2 chrc w2) as [Hm2 _].
    rewrite (Hm1 _ Hd1), (Hm2 _ Hd2) in Hpath. simpl in Hpath.
    apply append_inj_l in Hpath.
    apply (append_inj_l "/desc") in Hpath.
    by apply fmt_04x_inj in Hpath.
Qed.

Lemma created_paths_distinct_witness :
  desc_path
    (default (mirror_descriptor "" {| dd_handle := 0; dd_uuid := [] |})
       (result (descriptor_create {| dd_handle := 4; dd_uuid := [] |}
                  sample_chrc sample_world)))
  <> desc_path
       (default (mirror_descriptor "" {| dd_handle := 0; dd_uuid := [] |})
          (result (descriptor_create {| dd_handle := 0x14; dd_uuid := [] |}
                     sample_chrc sample_world))).
Proof.
  refine (proj2 (proj2
    (created_paths_distinct (client sample_world)
       (mirror_service "" {| sd_primary := true; sd_start_handle := 1;
                             sd_end_handle := 5; sd_uuid := [];
                             sd_iter_ok := true; sd_chrcs := [] |})
       sample_chrc))
    {| dd_handle := 4; dd_uuid := [] |} {| dd_handle := 0x14; dd_uuid := [] |}
    sample_world sample_world _ _ _ _ _ _ _).
  - simpl. unfold UINT16_MAX. lia.
  - simpl. unfold UINT16_MAX. lia.
  - reflexivity.
  - reflexivity.
  - simpl. lia.
Defined.

(** ** src/gatt-client.c: the Flags property *)

Section FlagsProperties.
Context `{prop_bits}.

(** X11: the Flags property reports default properties only.  Whatever
    the property bits of the characteristic and whatever the values of the
    bit masks, the strings that [characteristic_property_get_flags] appends
    are taken from the first eight entries of the table, in the order of
    the table and each at most once: a string is appended exactly when an
    entry among the first eight carries it and shares a bit with the
    characteristic's properties.  The loop ends at the empty entry that
    follows them, so [reliable-write] and [writable-auxiliaries] are never
    reported. *)
Theorem characteristic_property_get_flags_default (chrc : characteristic) :
  let flags := characteristic_property_get_flags chrc in
  flags `sublist_of`
    ["broadcast"; "read"; "write-without-response"; "write"; "notify";
     "indicate"; "authenticated-signed-writes"; "extended-properties"]%string
  /\ (forall name : string,
        name ∈ flags <->
        exists (i : nat) entry,
          (i < 8)%nat /\ properties !! i = Some entry /\
          str entry = Some name /\ Z.land (props chrc) (prop entry) <> 0)
  /\ ("reliable-write"%string ∉ flags)
  /\ ("writable-auxiliaries"%string ∉ flags).
Proof.
  intros flags.
  assert (flags `sublist_of`
            ["broadcast"; "read"; "write-without-response"; "write";
             "notify"; "indicate"; "authenticated-signed-writes";
             "extended-properties"]%string) as Hsub.
  { subst flags. unfold characteristic_property_get_flags, properties.
    cbn [flags_loop str prop].
    repeat match goal with
           | |- context [Z.land ?a ?b =? 0] =>
               destruct (Z.land a b =? 0); cbn [app]
           end.
    all: repeat first [apply sublist_nil_l | apply sublist_skip
                      | apply sublist_cons]. }
  assert (forall name : string,
            name ∈ ["broadcast"; "read"; "write-without-response"; "write";
                    "notify"; "indicate"; "authenticated-signed-writes";
                    "extended-properties"]%string ->
            name <> "reliable-write"%string
            /\ name <> "writable-auxiliaries"%string) as Hdefault.
  { intros name Hin. repeat (apply elem_of_cons in Hin as [->|Hin]; [done|]).
    by apply elem_of_nil in Hin. }
  split; [done|]. split; [|split].
  - intros name. subst flags.
    unfold characteristic_property_get_flags, properties.
    cbn [flags_loop str prop]. rewrite !elem_of_app. split.
    + intros Hin.
      destruct Hin as [Hin|[Hin|[Hin|[Hin|[Hin|[Hin|[Hin|[Hin|Hin]]]]]]]];
        [exists 0%nat|exists 1%nat|exists 2%nat|exists 3%nat|exists 4%nat
        |exists 5%nat|exists 6%nat|exists 7%nat|by apply elem_of_nil in Hin].
      all: eexists; split; [lia|]; split; [reflexivity|]; cbn [str prop].
      all: match type of Hin with
           | context [Z.land ?a ?b =? 0] =>
               destruct (Z.eqb_spec (Z.land a b) 0) as [|Hbit]
           end; [by apply elem_of_nil in Hin|].
      all: by apply list_elem_of_singleton in Hin as ->.
    + intros (i & entry & Hi & Hentry & Hname & Hbit).
      do 8 (destruct i as [|i];
            [injection Hentry as <-; injection Hname as <-;
             cbn [prop] in Hbit;
             rewrite (proj2 (Z.eqb_neq _ _) Hbit);
             rewrite list_elem_of_singleton; tauto|]).
      lia.
  - intros Hin. apply (elem_of_sublist _ _ _ Hin), Hdefault in Hsub.
    by destruct Hsub.
  - intros Hin. apply (elem_of_sublist _ _ _ Hin), Hdefault in Hsub.
    by destruct Hsub.
Qed.

End FlagsProperties.
